(** * Debug bookkeeping of the locking primitives in src/base/platform/mutex.cc

    The development embeds the DEBUG build of mutex.cc: every DCHECK is
    live and a failed DCHECK terminates the process.  A native lock is an
    external resource; a call that reaches it is recorded in a trace, and
    the value it hands back (a pthread return code, the outcome of a
    non-blocking attempt) is an argument of the embedded method.

    Addresses (SharedMutex*, the weak symbol of the Darwin runtime) are
    natural numbers with 0 for nullptr.  An [int] field is a [Z] kept inside
    the 32-bit signed range; stepping outside of it is undefined behaviour. *)

From stdpp Require Import gmap functions.
From Stdlib Require Import ZArith Lia.

Local Open Scope Z_scope.

(** ** Addresses *)

Abbreviation ptr := N.
Definition nullptr : ptr := 0%N.
Abbreviation thread := nat.

(** ** Calls that leave this translation unit *)

Inductive Event : Type :=
  (* evaluation of the address of the weak symbol in a condition *)
  | weak_symbol_test
  (* Darwin unfair lock *)
  | os_unfair_lock_lock_with_options_call (lock : ptr) (options : Z)
  | os_unfair_lock_lock_call (lock : ptr)
  (* the handle behind Mutex, SharedMutex and the portable SpinningMutex *)
  | handle_Lock (h : ptr)
  | handle_Unlock (h : ptr)
  | handle_TryLock (h : ptr)
  | handle_ReaderLock (h : ptr)
  | handle_ReaderUnlock (h : ptr)
  | handle_ReaderTryLock (h : ptr)
  (* pthreads *)
  | pthread_mutexattr_init_call
  | pthread_mutexattr_settype_call
  | pthread_mutex_init_call (h : ptr)
  | pthread_mutexattr_destroy_call
  | pthread_mutex_destroy_call (h : ptr)
  | pthread_mutex_lock_call (h : ptr)
  | pthread_mutex_unlock_call (h : ptr)
  | pthread_mutex_trylock_call (h : ptr)
  (* Windows critical sections *)
  | InitializeCriticalSection_call (h : ptr)
  | DeleteCriticalSection_call (h : ptr)
  | EnterCriticalSection_call (h : ptr)
  | LeaveCriticalSection_call (h : ptr)
  | TryEnterCriticalSection_call (h : ptr).

Global Instance Event_eq_dec : EqDecision Event.
Proof. solve_decision. Defined.

(** ** Outcomes and the monad of instrumented code *)

Inductive outcome (A : Type) : Type :=
  | Ok (a : A)
  | Fatal        (* a DCHECK failed *)
  | Undefined.   (* signed overflow of an int *)

Arguments Ok {A} a.
Arguments Fatal {A}.
Arguments Undefined {A}.

(** A computation over a state [S]: result, final state and the calls made. *)
Definition M (S A : Type) : Type := S → outcome (A * S * list Event).

Global Instance M_ret {S} : MRet (M S) :=
  λ A a s, Ok (a, s, []).

Global Instance M_bind {S} : MBind (M S) :=
  λ A B k c s,
    match c s with
    | Ok (a, s1, t1) =>
        match k a s1 with
        | Ok (b, s2, t2) => Ok (b, s2, t1 ++ t2)
        | Fatal => Fatal
        | Undefined => Undefined
        end
    | Fatal => Fatal
    | Undefined => Undefined
    end.

Definition get {S} : M S S := λ s, Ok (s, s, []).
Definition put {S} (s : S) : M S unit := λ _, Ok (tt, s, []).
Definition call {S} (e : Event) : M S unit := λ s, Ok (tt, s, [e]).
Definition fatal {S A} : M S A := λ _, Fatal.
Definition undefined {S A} : M S A := λ _, Undefined.

(** The DCHECK family of src/base/logging.h in a DEBUG build. *)
Definition DCHECK {S} (condition : bool) : M S unit :=
  if condition then mret tt else fatal.
Definition DCHECK_EQ {S} (a b : Z) : M S unit := DCHECK (a =? b).
Definition DCHECK_LE {S} (a b : Z) : M S unit := DCHECK (a <=? b).
Definition DCHECK_LT {S} (a b : Z) : M S unit := DCHECK (a <? b).
Definition DCHECK_NOT_NULL {S} (p : ptr) : M S unit :=
  DCHECK (negb (bool_decide (p = nullptr))).

(** ** The int type *)

Definition INT_MAX : Z := 2147483647.
Definition INT_MIN : Z := -2147483648.

Definition int_incr {S} (v : Z) : M S Z :=
  if v <? INT_MAX then mret (v + 1) else undefined.
Definition int_decr {S} (v : Z) : M S Z :=
  if INT_MIN <? v then mret (v - 1) else undefined.

(** ** Thread-local tracker of held shared mutexes (lines 53-110) *)

Module Tracker.

(** The two thread_local variables of one thread. *)
Record t : Type := mk {
  single_held_shared_mutex : ptr;
  held_shared_mutexes : option (gset ptr)   (* TSet*, None for nullptr *)
}.

Definition init : t :=
  {| single_held_shared_mutex := nullptr; held_shared_mutexes := None |}.

Definition set_single (p : ptr) : M t unit :=
  λ s, Ok (tt, {| single_held_shared_mutex := p;
                  held_shared_mutexes := held_shared_mutexes s |}, []).
Definition set_held (h : option (gset ptr)) : M t unit :=
  λ s, Ok (tt, {| single_held_shared_mutex := single_held_shared_mutex s;
                  held_shared_mutexes := h |}, []).

Definition DCHECK_NULL (h : option (gset ptr)) : M t unit :=
  DCHECK (bool_decide (h = None)).

Definition SharedMutexNotHeld (shared_mutex : ptr) : M t bool :=
  DCHECK_NOT_NULL shared_mutex;;
  s ← get;
  mret (negb (bool_decide (single_held_shared_mutex s = shared_mutex)) &&
        match held_shared_mutexes s with
        | None => true
        | Some set => negb (bool_decide (shared_mutex ∈ set))
        end).

Definition TryHoldSharedMutex (shared_mutex : ptr) : M t bool :=
  DCHECK_NOT_NULL shared_mutex;;
  s ← get;
  if negb (bool_decide (single_held_shared_mutex s = nullptr)) then
    if bool_decide (shared_mutex = single_held_shared_mutex s) then
      mret false
    else
      DCHECK_NULL (held_shared_mutexes s);;
      set_held (Some ({[single_held_shared_mutex s; shared_mutex]}));;
      set_single nullptr;;
      mret true
  else
    match held_shared_mutexes s with
    | Some set =>
        set_held (Some ({[shared_mutex]} ∪ set));;
        mret (negb (bool_decide (shared_mutex ∈ set)))
    | None =>
        DCHECK (bool_decide (single_held_shared_mutex s = nullptr));;
        set_single shared_mutex;;
        mret true
    end.

Definition TryReleaseSharedMutex (shared_mutex : ptr) : M t bool :=
  DCHECK_NOT_NULL shared_mutex;;
  s ← get;
  if bool_decide (single_held_shared_mutex s = shared_mutex) then
    set_single nullptr;;
    mret true
  else
    match held_shared_mutexes s with
    | Some set =>
        if bool_decide (shared_mutex ∈ set) then
          let erased := set ∖ {[shared_mutex]} in
          (if bool_decide (erased = ∅) then set_held None
           else set_held (Some erased));;
          mret true
        else mret false
    | None => mret false
    end.

(** The instances a tracker state records, whatever the representation. *)
Definition held (s : t) : gset ptr :=
  (if bool_decide (single_held_shared_mutex s = nullptr) then ∅
   else {[single_held_shared_mutex s]})
  ∪ default ∅ (held_shared_mutexes s).

(** The representation read as a variant. *)
Inductive Repr : Type :=
  | Empty
  | Single (m : ptr)
  | Many (set : gset ptr).

Definition repr (s : t) : option Repr :=
  match held_shared_mutexes s with
  | None =>
      if bool_decide (single_held_shared_mutex s = nullptr)
      then Some Empty else Some (Single (single_held_shared_mutex s))
  | Some set =>
      if bool_decide (single_held_shared_mutex s = nullptr)
      then Some (Many set) else None
  end.

Inductive Op : Type :=
  | Hold (m : ptr)
  | Release (m : ptr).

Definition step (op : Op) : M t bool :=
  match op with
  | Hold m => TryHoldSharedMutex m
  | Release m => TryReleaseSharedMutex m
  end.

(** States the two maintenance functions can produce from the initial one. *)
Inductive reachable : t → Prop :=
  | reachable_init : reachable init
  | reachable_step s op r s' tr :
      reachable s → step op s = Ok (r, s', tr) → reachable s'.

(** Running a list of operations, stopping at the first failed DCHECK. *)
Fixpoint run (ops : list Op) (s : t) : outcome t :=
  match ops with
  | [] => Ok s
  | op :: ops' =>
      match step op s with
      | Ok (_, s', _) => run ops' s'
      | Fatal => Fatal
      | Undefined => Undefined
      end
  end.

(** At most one of the two variables is set, and an allocated set is not
    empty. *)
Definition wf (s : t) : Prop :=
  (single_held_shared_mutex s = nullptr ∨ held_shared_mutexes s = None) ∧
  held_shared_mutexes s ≠ Some ∅.

End Tracker.

(** ** SharedMutex (lines 260-297) *)

Module SharedMutex.

(** thread_local storage: each thread has its own pair of variables. *)
Abbreviation TLS := (thread → Tracker.t).

Definition tls_init : TLS := λ _, Tracker.init.

(** Code executed by thread [self] reads and writes that thread's copy. *)
Definition on_thread {A} (self : thread) (c : M Tracker.t A) : M TLS A :=
  λ w,
    match c (w self) with
    | Ok (a, s, tr) => Ok (a, <[self := s]> w, tr)
    | Fatal => Fatal
    | Undefined => Undefined
    end.

Definition LockShared (self : thread) (this : ptr) : M TLS unit :=
  ok ← on_thread self (Tracker.TryHoldSharedMutex this);
  DCHECK ok;;
  call (handle_ReaderLock this).

Definition LockExclusive (self : thread) (this : ptr) : M TLS unit :=
  ok ← on_thread self (Tracker.TryHoldSharedMutex this);
  DCHECK ok;;
  call (handle_Lock this).

Definition UnlockShared (self : thread) (this : ptr) : M TLS unit :=
  ok ← on_thread self (Tracker.TryReleaseSharedMutex this);
  DCHECK ok;;
  call (handle_ReaderUnlock this).

Definition UnlockExclusive (self : thread) (this : ptr) : M TLS unit :=
  ok ← on_thread self (Tracker.TryReleaseSharedMutex this);
  DCHECK ok;;
  call (handle_Unlock this).

(** [acquired] is what native_handle_.ReaderTryLock() returns. *)
Definition TryLockShared (self : thread) (this : ptr) (acquired : bool)
  : M TLS bool :=
  free ← on_thread self (Tracker.SharedMutexNotHeld this);
  DCHECK free;;
  call (handle_ReaderTryLock this);;
  let result := acquired in
  (if result
   then ok ← on_thread self (Tracker.TryHoldSharedMutex this); DCHECK ok
   else mret tt);;
  mret result.

(** [acquired] is what native_handle_.TryLock() returns. *)
Definition TryLockExclusive (self : thread) (this : ptr) (acquired : bool)
  : M TLS bool :=
  free ← on_thread self (Tracker.SharedMutexNotHeld this);
  DCHECK free;;
  call (handle_TryLock this);;
  let result := acquired in
  (if result
   then ok ← on_thread self (Tracker.TryHoldSharedMutex this); DCHECK ok
   else mret tt);;
  mret result.

End SharedMutex.

(** ** Mutex, the exclusive mutex (lines 299-321) *)

Module Mutex.

Record t : Type := mk { level_ : Z }.

(** Modelled from the spec: AssertUnheldAndMark is defined in mutex.h, which
    is not among the sources.  Section 4.1: Lock "asserts the debug counter
    is currently 0 and sets it to 1". *)
Definition AssertUnheldAndMark : M t unit :=
  s ← get;
  DCHECK_EQ 0 (level_ s);;
  put (mk 1).

(** Modelled from the spec: AssertHeldAndUnmark is defined in mutex.h, which
    is not among the sources.  Section 4.1: Unlock "asserts counter is 1,
    sets to 0". *)
Definition AssertHeldAndUnmark : M t unit :=
  s ← get;
  DCHECK_EQ 1 (level_ s);;
  put (mk 0).

(** Mutex::Mutex() runs on storage whose content is arbitrary. *)
Definition constructor : M t unit :=
  put (mk 0).

(** Mutex::~Mutex() *)
Definition destructor : M t unit :=
  s ← get;
  DCHECK_EQ 0 (level_ s).

Definition Lock (this : ptr) : M t unit :=
  call (handle_Lock this);;
  AssertUnheldAndMark.

Definition Unlock (this : ptr) : M t unit :=
  AssertHeldAndUnmark;;
  call (handle_Unlock this).

(** [acquired] is what native_handle_.TryLock() returns. *)
Definition TryLock (this : ptr) (acquired : bool) : M t bool :=
  call (handle_TryLock this);;
  if negb acquired then mret false
  else
    AssertUnheldAndMark;;
    mret true.

Inductive Op : Type :=
  | OpLock
  | OpUnlock
  | OpTryLock (acquired : bool).

Definition step (this : ptr) (op : Op) : M t unit :=
  match op with
  | OpLock => Lock this
  | OpUnlock => Unlock this
  | OpTryLock acquired => TryLock this acquired;; mret tt
  end.

(** States of one instance between its construction and its destruction. *)
Inductive reachable (this : ptr) : t → Prop :=
  | reachable_new s0 s tr :
      constructor s0 = Ok (tt, s, tr) → reachable this s
  | reachable_step s op s' tr :
      reachable this s → step this op s = Ok (tt, s', tr) → reachable this s'.

Fixpoint run (this : ptr) (ops : list Op) (s : t) : outcome t :=
  match ops with
  | [] => Ok s
  | op :: ops' =>
      match step this op s with
      | Ok (_, s', _) => run this ops' s'
      | Fatal => Fatal
      | Undefined => Undefined
      end
  end.

End Mutex.

(** ** RecursiveMutex, POSIX (lines 112-199) and Windows (lines 201-244)

    The Starboard variant (lines 246-258) keeps no counter and is not part
    of the bookkeeping model. *)

Module RecursiveMutex.

Inductive Platform : Type :=
  | V8_OS_POSIX
  | V8_OS_WIN.

Record t : Type := mk { level_ : Z }.

(** errno value of <errno.h> *)
Definition EBUSY : Z := 16.

(** Return codes of the four calls of InitializeRecursiveNativeHandle. *)
Record init_results : Type := mk_init_results {
  r_mutexattr_init : Z;
  r_mutexattr_settype : Z;
  r_mutex_init : Z;
  r_mutexattr_destroy : Z
}.

Definition InitializeRecursiveNativeHandle (mutex : ptr) (r : init_results)
  : M t unit :=
  call pthread_mutexattr_init_call;;
  let result := r_mutexattr_init r in
  DCHECK_EQ 0 result;;
  call pthread_mutexattr_settype_call;;
  let result := r_mutexattr_settype r in
  DCHECK_EQ 0 result;;
  call (pthread_mutex_init_call mutex);;
  let result := r_mutex_init r in
  DCHECK_EQ 0 result;;
  call pthread_mutexattr_destroy_call;;
  let result := r_mutexattr_destroy r in
  DCHECK_EQ 0 result.

Definition DestroyNativeHandle (mutex : ptr) (result : Z) : M t unit :=
  call (pthread_mutex_destroy_call mutex);;
  DCHECK_EQ 0 result.

Definition LockNativeHandle (mutex : ptr) (result : Z) : M t unit :=
  call (pthread_mutex_lock_call mutex);;
  DCHECK_EQ 0 result.

Definition UnlockNativeHandle (mutex : ptr) (result : Z) : M t unit :=
  call (pthread_mutex_unlock_call mutex);;
  DCHECK_EQ 0 result.

Definition TryLockNativeHandle (mutex : ptr) (result : Z) : M t bool :=
  call (pthread_mutex_trylock_call mutex);;
  if result =? EBUSY then mret false
  else
    DCHECK_EQ 0 result;;
    mret true.

(** level_++ and level_-- *)
Definition incr_level : M t unit :=
  s ← get;
  v ← int_incr (level_ s);
  put (mk v).

Definition decr_level : M t unit :=
  s ← get;
  v ← int_decr (level_ s);
  put (mk v).

Definition constructor_POSIX (this : ptr) (r : init_results) : M t unit :=
  InitializeRecursiveNativeHandle this r;;
  put (mk 0).

Definition destructor_POSIX (this : ptr) (result : Z) : M t unit :=
  DestroyNativeHandle this result;;
  s ← get;
  DCHECK_EQ 0 (level_ s).

Definition Lock_POSIX (this : ptr) (result : Z) : M t unit :=
  LockNativeHandle this result;;
  s ← get;
  DCHECK_LE 0 (level_ s);;
  incr_level.

Definition Unlock_POSIX (this : ptr) (result : Z) : M t unit :=
  s ← get;
  DCHECK_LT 0 (level_ s);;
  decr_level;;
  UnlockNativeHandle this result.

Definition TryLock_POSIX (this : ptr) (result : Z) : M t bool :=
  locked ← TryLockNativeHandle this result;
  if negb locked then mret false
  else
    s ← get;
    DCHECK_LE 0 (level_ s);;
    incr_level;;
    mret true.

Definition constructor_WIN (this : ptr) : M t unit :=
  call (InitializeCriticalSection_call this);;
  put (mk 0).

Definition destructor_WIN (this : ptr) : M t unit :=
  call (DeleteCriticalSection_call this);;
  s ← get;
  DCHECK_EQ 0 (level_ s).

Definition Lock_WIN (this : ptr) : M t unit :=
  call (EnterCriticalSection_call this);;
  s ← get;
  DCHECK_LE 0 (level_ s);;
  incr_level.

Definition Unlock_WIN (this : ptr) : M t unit :=
  s ← get;
  DCHECK_LT 0 (level_ s);;
  decr_level;;
  call (LeaveCriticalSection_call this).

(** [entered] is the BOOL TryEnterCriticalSection returns. *)
Definition TryLock_WIN (this : ptr) (entered : Z) : M t bool :=
  call (TryEnterCriticalSection_call this);;
  if entered =? 0 then mret false
  else
    s ← get;
    DCHECK_LE 0 (level_ s);;
    incr_level;;
    mret true.

(** The variant the preprocessor selects.  [result] is the value the single
    native call of the method returns; the Windows calls of the constructor,
    destructor, Lock and Unlock return nothing and ignore it. *)
Definition constructor (os : Platform) (this : ptr) (r : init_results)
  : M t unit :=
  match os with
  | V8_OS_POSIX => constructor_POSIX this r
  | V8_OS_WIN => constructor_WIN this
  end.

Definition destructor (os : Platform) (this : ptr) (result : Z) : M t unit :=
  match os with
  | V8_OS_POSIX => destructor_POSIX this result
  | V8_OS_WIN => destructor_WIN this
  end.

Definition Lock (os : Platform) (this : ptr) (result : Z) : M t unit :=
  match os with
  | V8_OS_POSIX => Lock_POSIX this result
  | V8_OS_WIN => Lock_WIN this
  end.

Definition Unlock (os : Platform) (this : ptr) (result : Z) : M t unit :=
  match os with
  | V8_OS_POSIX => Unlock_POSIX this result
  | V8_OS_WIN => Unlock_WIN this
  end.

Definition TryLock (os : Platform) (this : ptr) (result : Z) : M t bool :=
  match os with
  | V8_OS_POSIX => TryLock_POSIX this result
  | V8_OS_WIN => TryLock_WIN this result
  end.

(** Whether the native non-blocking attempt took the lock. *)
Definition native_acquired (os : Platform) (result : Z) : bool :=
  match os with
  | V8_OS_POSIX => result =? 0
  | V8_OS_WIN => negb (result =? 0)
  end.

(** Whether the native blocking call or release reported success. *)
Definition native_ok (os : Platform) (result : Z) : bool :=
  match os with
  | V8_OS_POSIX => result =? 0
  | V8_OS_WIN => true
  end.

(** Whether the native non-blocking attempt found the lock taken. *)
Definition native_busy (os : Platform) (result : Z) : bool :=
  match os with
  | V8_OS_POSIX => result =? EBUSY
  | V8_OS_WIN => result =? 0
  end.

Definition init_ok (os : Platform) (r : init_results) : bool :=
  match os with
  | V8_OS_POSIX =>
      (r_mutexattr_init r =? 0) && (r_mutexattr_settype r =? 0)
      && (r_mutex_init r =? 0) && (r_mutexattr_destroy r =? 0)
  | V8_OS_WIN => true
  end.

Inductive Op : Type :=
  | OpLock (result : Z)
  | OpUnlock (result : Z)
  | OpTryLock (result : Z).

Definition step (os : Platform) (this : ptr) (op : Op) : M t unit :=
  match op with
  | OpLock result => Lock os this result
  | OpUnlock result => Unlock os this result
  | OpTryLock result => TryLock os this result;; mret tt
  end.

(** States of one instance between its construction and its destruction. *)
Inductive reachable (os : Platform) (this : ptr) : t → Prop :=
  | reachable_new r s0 s tr :
      constructor os this r s0 = Ok (tt, s, tr) → reachable os this s
  | reachable_step s op s' tr :
      reachable os this s → step os this op s = Ok (tt, s', tr) →
      reachable os this s'.

End RecursiveMutex.

(** ** SpinningMutex (lines 21-51) *)

Module SpinningMutex.

Definition OS_UNFAIR_LOCK_DATA_SYNCHRONIZATION : Z := 0x00010000.
Definition OS_UNFAIR_LOCK_ADAPTIVE_SPIN : Z := 0x00040000.

(** static_cast to the typedef of uint32_t *)
Definition os_unfair_lock_options_t (v : Z) : Z := v mod 2 ^ 32.

Section Darwin.

(** Address the loader gave the weak symbol: nullptr when the runtime does
    not export it. *)
Variable os_unfair_lock_lock_with_options : ptr.

Definition Lock_DARWIN (lock_ : ptr) : M unit unit :=
  call weak_symbol_test;;
  if negb (bool_decide (os_unfair_lock_lock_with_options = nullptr)) then
    let options :=
      os_unfair_lock_options_t
        (Z.lor OS_UNFAIR_LOCK_DATA_SYNCHRONIZATION
               OS_UNFAIR_LOCK_ADAPTIVE_SPIN) in
    call (os_unfair_lock_lock_with_options_call lock_ options)
  else
    call (os_unfair_lock_lock_call lock_).

(** [n] successive calls of Lock in one process. *)
Fixpoint Lock_DARWIN_times (n : nat) (lock_ : ptr) : M unit unit :=
  match n with
  | O => mret tt
  | S n' => Lock_DARWIN lock_;; Lock_DARWIN_times n' lock_
  end.

End Darwin.

(** The variant of every other OS family: lock_.Lock() *)
Definition Lock_OTHER (lock_ : ptr) : M unit unit :=
  call (handle_Lock lock_).

Definition Lock (V8_OS_DARWIN : bool) (os_unfair_lock_lock_with_options : ptr)
  (lock_ : ptr) : M unit unit :=
  if V8_OS_DARWIN then Lock_DARWIN os_unfair_lock_lock_with_options lock_
  else Lock_OTHER lock_.

(** The calls of a run, and how many times it looked at the weak symbol. *)
Definition trace_of (c : M unit unit) : list Event :=
  match c tt with
  | Ok (_, _, tr) => tr
  | _ => []
  end.

Definition symbol_tests (tr : list Event) : nat :=
  length (filter (λ e, e = weak_symbol_test) tr).

End SpinningMutex.

Module TrackerSpec.

(** The variant section 9 of the design notes assigns to a held-set:
    Empty for none, Single for exactly one instance, Many otherwise. *)
Definition variant_of (H : gset ptr) : Tracker.Repr :=
  match elements H with
  | [] => Tracker.Empty
  | [m] => Tracker.Single m
  | _ => Tracker.Many H
  end.

End TrackerSpec.

(** ** The held-set as a mathematical set *)

Module HeldSet.

(** What a maintenance call does to the set of held instances. *)
Definition apply (H : gset ptr) (op : Tracker.Op) : gset ptr :=
  match op with
  | Tracker.Hold m => H ∪ {[m]}
  | Tracker.Release m => H ∖ {[m]}
  end.

Definition apply_all (ops : list Tracker.Op) (H : gset ptr) : gset ptr :=
  foldl apply H ops.

Definition arg (op : Tracker.Op) : ptr :=
  match op with
  | Tracker.Hold m => m
  | Tracker.Release m => m
  end.

End HeldSet.

(** ** The six methods of SharedMutex behind one entry point *)

Module SharedMutexCalls.

Inductive Method : Type :=
  | LockShared
  | LockExclusive
  | UnlockShared
  | UnlockExclusive
  | TryLockShared (acquired : bool)
  | TryLockExclusive (acquired : bool).

Definition invoke (meth : Method) (self : thread) (this : ptr)
  : M SharedMutex.TLS bool :=
  match meth with
  | LockShared => SharedMutex.LockShared self this;; mret true
  | LockExclusive => SharedMutex.LockExclusive self this;; mret true
  | UnlockShared => SharedMutex.UnlockShared self this;; mret true
  | UnlockExclusive => SharedMutex.UnlockExclusive self this;; mret true
  | TryLockShared acquired => SharedMutex.TryLockShared self this acquired
  | TryLockExclusive acquired =>
      SharedMutex.TryLockExclusive self this acquired
  end.

End SharedMutexCalls.

(** ** Runs of RecursiveMutex methods *)

Module RecursiveMutexRuns.

Fixpoint run (os : RecursiveMutex.Platform) (this : ptr)
  (ops : list RecursiveMutex.Op) (s : RecursiveMutex.t)
  : outcome RecursiveMutex.t :=
  match ops with
  | [] => Ok s
  | op :: ops' =>
      match RecursiveMutex.step os this op s with
      | Ok (_, s', _) => run os this ops' s'
      | Fatal => Fatal
      | Undefined => Undefined
      end
  end.

(** What a method adds to the depth when it returns. *)
Definition delta (os : RecursiveMutex.Platform) (op : RecursiveMutex.Op) : Z :=
  match op with
  | RecursiveMutex.OpLock _ => 1
  | RecursiveMutex.OpUnlock _ => -1
  | RecursiveMutex.OpTryLock result =>
      if RecursiveMutex.native_acquired os result then 1 else 0
  end.

Definition balance (os : RecursiveMutex.Platform)
  (ops : list RecursiveMutex.Op) : Z :=
  foldr (λ op acc, delta os op + acc) 0 ops.

(** A return value with which the native call of either platform succeeds
    (0 for pthreads, a non-zero BOOL for TryEnterCriticalSection). *)
Definition success (os : RecursiveMutex.Platform) : Z :=
  match os with
  | RecursiveMutex.V8_OS_POSIX => 0
  | RecursiveMutex.V8_OS_WIN => 1
  end.

End RecursiveMutexRuns.

Module SharedMutexModes.

Import SharedMutexCalls.

(** Calls that return holding the lock. *)
Definition acquires (meth : Method) : bool :=
  match meth with
  | LockShared | LockExclusive => true
  | TryLockShared acquired | TryLockExclusive acquired => acquired
  | UnlockShared | UnlockExclusive => false
  end.

Definition releases (meth : Method) : bool :=
  match meth with
  | UnlockShared | UnlockExclusive => true
  | _ => false
  end.

(** Non-blocking attempts the native lock turned down. *)
Definition failed_try (meth : Method) : bool :=
  match meth with
  | TryLockShared acquired | TryLockExclusive acquired => negb acquired
  | _ => false
  end.

End SharedMutexModes.

(** * Proofs *)

Set Warnings "-clear-no-such-hyp".

#[local] Arguments Z.eqb : simpl never.
#[local] Arguments Z.leb : simpl never.
#[local] Arguments Z.ltb : simpl never.

Ltac run_monad :=
  unfold DCHECK_EQ, DCHECK_LE, DCHECK_LT, DCHECK_NOT_NULL,
    Tracker.DCHECK_NULL, Tracker.set_single, Tracker.set_held,
    int_incr, int_decr in *;
  unfold DCHECK in *;
  unfold mbind, mret, M_bind, M_ret, get, put, call, fatal, undefined in *;
  simpl in *.

(* settle the integer comparisons of the code by arithmetic *)
Ltac decide_tests :=
  repeat first
    [ match goal with
      | H : context [Z.eqb ?a ?b] |- _ => destruct (Z.eqb_spec a b)
      | H : context [Z.leb ?a ?b] |- _ => destruct (Z.leb_spec a b)
      | H : context [Z.ltb ?a ?b] |- _ => destruct (Z.ltb_spec a b)
      | |- context [Z.eqb ?a ?b] => destruct (Z.eqb_spec a b)
      | |- context [Z.leb ?a ?b] => destruct (Z.leb_spec a b)
      | |- context [Z.ltb ?a ?b] => destruct (Z.ltb_spec a b)
      end; simpl in *; simplify_eq; simpl in *;
      try (unfold INT_MAX, INT_MIN in *; lia) ].

(* decide every test of the code in the goal *)
Ltac split_tests :=
  repeat (case_bool_decide; simpl in *; simplify_eq; try done).

Section TrackerCases.
Context (m : ptr) (Hm : m ≠ nullptr).

Lemma hold_Empty :
  Tracker.TryHoldSharedMutex m (Tracker.mk nullptr None)
  = Ok (true, Tracker.mk m None, []).
Proof using Hm. unfold Tracker.TryHoldSharedMutex. run_monad. by split_tests. Qed.

Lemma hold_Single_same :
  Tracker.TryHoldSharedMutex m (Tracker.mk m None)
  = Ok (false, Tracker.mk m None, []).
Proof using Hm. unfold Tracker.TryHoldSharedMutex. run_monad. by split_tests. Qed.

Lemma hold_Single_other (a : ptr) :
  a ≠ nullptr → a ≠ m →
  Tracker.TryHoldSharedMutex m (Tracker.mk a None)
  = Ok (true, Tracker.mk nullptr (Some {[a; m]}), []).
Proof using Hm. intros. unfold Tracker.TryHoldSharedMutex. run_monad. by split_tests. Qed.

Lemma hold_Many (S : gset ptr) :
  Tracker.TryHoldSharedMutex m (Tracker.mk nullptr (Some S))
  = Ok (bool_decide (m ∉ S), Tracker.mk nullptr (Some ({[m]} ∪ S)), []).
Proof using Hm. unfold Tracker.TryHoldSharedMutex. run_monad. by split_tests. Qed.

Lemma release_Single :
  Tracker.TryReleaseSharedMutex m (Tracker.mk m None)
  = Ok (true, Tracker.mk nullptr None, []).
Proof using Hm. unfold Tracker.TryReleaseSharedMutex. run_monad. by split_tests. Qed.

Lemma release_Single_other (a : ptr) :
  a ≠ m →
  Tracker.TryReleaseSharedMutex m (Tracker.mk a None)
  = Ok (false, Tracker.mk a None, []).
Proof using Hm. intros. unfold Tracker.TryReleaseSharedMutex. run_monad. by split_tests. Qed.

Lemma release_Many_last (S : gset ptr) :
  m ∈ S → S ∖ {[m]} = ∅ →
  Tracker.TryReleaseSharedMutex m (Tracker.mk nullptr (Some S))
  = Ok (true, Tracker.mk nullptr None, []).
Proof using Hm. intros. unfold Tracker.TryReleaseSharedMutex. run_monad. by split_tests. Qed.

Lemma release_Many_more (S : gset ptr) :
  m ∈ S → S ∖ {[m]} ≠ ∅ →
  Tracker.TryReleaseSharedMutex m (Tracker.mk nullptr (Some S))
  = Ok (true, Tracker.mk nullptr (Some (S ∖ {[m]})), []).
Proof using Hm. intros. unfold Tracker.TryReleaseSharedMutex. run_monad. by split_tests. Qed.

Lemma release_Many_absent (S : gset ptr) :
  m ∉ S →
  Tracker.TryReleaseSharedMutex m (Tracker.mk nullptr (Some S))
  = Ok (false, Tracker.mk nullptr (Some S), []).
Proof using Hm. intros. unfold Tracker.TryReleaseSharedMutex. run_monad. by split_tests. Qed.

End TrackerCases.

(* A well-formed state is in one of the three shapes. *)
Lemma wf_cases (s : Tracker.t) :
  Tracker.wf s →
  s = Tracker.mk nullptr None
  ∨ (∃ a, a ≠ nullptr ∧ s = Tracker.mk a None)
  ∨ (∃ S, S ≠ ∅ ∧ s = Tracker.mk nullptr (Some S)).
Proof.
  destruct s as [single [S|]]; intros [[H|H] Hne]; simpl in *; simplify_eq.
  - right; right. exists S. split; [congruence|done].
  - by left.
  - destruct (decide (single = nullptr)) as [->|]; [by left|right; left; eauto].
Qed.

Lemma held_Empty : Tracker.held (Tracker.mk nullptr None) = ∅.
Proof. unfold Tracker.held; simpl. set_solver. Qed.
Lemma held_Single a : a ≠ nullptr → Tracker.held (Tracker.mk a None) = {[a]}.
Proof. intros. unfold Tracker.held; simpl. rewrite bool_decide_eq_false_2 by done. set_solver. Qed.
Lemma held_Many S : Tracker.held (Tracker.mk nullptr (Some S)) = S.
Proof. unfold Tracker.held; simpl. set_solver. Qed.

Lemma wf_Empty : Tracker.wf (Tracker.mk nullptr None).
Proof. split; [by left|done]. Qed.
Lemma wf_Single a : Tracker.wf (Tracker.mk a None).
Proof. split; [by right|done]. Qed.
Lemma wf_Many S : S ≠ ∅ → Tracker.wf (Tracker.mk nullptr (Some S)).
Proof. intros. split; [by left|]. simpl. congruence. Qed.

Lemma SharedMutexNotHeld_spec (m : N) (s : Tracker.t) :
  m ≠ nullptr →
  Tracker.SharedMutexNotHeld m s = Ok (bool_decide (m ∉ Tracker.held s), s, []).
Proof.
  intros Hm. unfold Tracker.SharedMutexNotHeld, Tracker.held. run_monad.
  destruct s as [single [S|]]; simpl; split_tests; set_solver.
Qed.

Lemma TryHoldSharedMutex_spec (m : N) (s : Tracker.t) :
  m ≠ nullptr → Tracker.wf s →
  ∃ s', Tracker.TryHoldSharedMutex m s = Ok (bool_decide (m ∉ Tracker.held s), s', [])
        ∧ Tracker.held s' = Tracker.held s ∪ {[m]}
        ∧ Tracker.wf s'.
Proof.
  intros Hm Hwf.
  destruct (wf_cases s Hwf) as [->|[(a & Ha & ->)|(S & HS & ->)]].
  - rewrite hold_Empty by done. eexists; split; [|split].
    + rewrite held_Empty. by rewrite bool_decide_eq_true_2 by set_solver.
    + rewrite held_Empty, held_Single by done. set_solver.
    + apply wf_Single.
  - destruct (decide (a = m)) as [->|Hne].
    + rewrite hold_Single_same by done. eexists; split; [|split].
      * rewrite held_Single by done. by rewrite bool_decide_eq_false_2 by set_solver.
      * rewrite held_Single by done. set_solver.
      * apply wf_Single.
    + rewrite hold_Single_other by done. eexists; split; [|split].
      * rewrite held_Single by done. by rewrite bool_decide_eq_true_2 by set_solver.
      * rewrite held_Many, held_Single by done. set_solver.
      * apply wf_Many. set_solver.
  - rewrite hold_Many by done. eexists; split; [|split].
    + by rewrite held_Many.
    + rewrite !held_Many. set_solver.
    + apply wf_Many. set_solver.
Qed.

Lemma TryReleaseSharedMutex_spec (m : N) (s : Tracker.t) :
  m ≠ nullptr → Tracker.wf s →
  ∃ s', Tracker.TryReleaseSharedMutex m s = Ok (bool_decide (m ∈ Tracker.held s), s', [])
        ∧ Tracker.held s' = Tracker.held s ∖ {[m]}
        ∧ Tracker.wf s'.
Proof.
  intros Hm Hwf.
  destruct (wf_cases s Hwf) as [->|[(a & Ha & ->)|(S & HS & ->)]].
  - rewrite release_Single_other by congruence. eexists; split; [|split].
    + rewrite held_Empty. by rewrite bool_decide_eq_false_2 by set_solver.
    + rewrite held_Empty. set_solver.
    + apply wf_Empty.
  - destruct (decide (a = m)) as [->|Hne].
    + rewrite release_Single by done. eexists; split; [|split].
      * rewrite held_Single by done. by rewrite bool_decide_eq_true_2 by set_solver.
      * rewrite held_Empty, held_Single by done. set_solver.
      * apply wf_Empty.
    + rewrite release_Single_other by done. eexists; split; [|split].
      * rewrite held_Single by done. by rewrite bool_decide_eq_false_2 by set_solver.
      * rewrite held_Single by done. set_solver.
      * apply wf_Single.
  - destruct (decide (m ∈ S)) as [Hin|Hin].
    + destruct (decide (S ∖ {[m]} = ∅)) as [He|He].
      * rewrite release_Many_last by done. eexists; split; [|split].
        -- rewrite held_Many. by rewrite bool_decide_eq_true_2.
        -- rewrite held_Many, held_Empty. by rewrite He.
        -- apply wf_Empty.
      * rewrite release_Many_more by done. eexists; split; [|split].
        -- rewrite held_Many. by rewrite bool_decide_eq_true_2.
        -- by rewrite !held_Many.
        -- by apply wf_Many.
    + rewrite release_Many_absent by done. eexists; split; [|split].
      * rewrite held_Many. by rewrite bool_decide_eq_false_2.
      * rewrite held_Many. set_solver.
      * by apply wf_Many.
Qed.

Lemma TryHoldSharedMutex_null (s : Tracker.t) :
  Tracker.TryHoldSharedMutex nullptr s = Fatal.
Proof. unfold Tracker.TryHoldSharedMutex. by run_monad. Qed.

Lemma TryReleaseSharedMutex_null (s : Tracker.t) :
  Tracker.TryReleaseSharedMutex nullptr s = Fatal.
Proof. unfold Tracker.TryReleaseSharedMutex. by run_monad. Qed.

Lemma step_wf op s r s' tr :
  Tracker.wf s → Tracker.step op s = Ok (r, s', tr) → Tracker.wf s'.
Proof.
  intros Hwf Hstep.
  destruct op as [m|m]; simpl in Hstep.
  - destruct (decide (m = nullptr)) as [->|Hm].
    { by rewrite TryHoldSharedMutex_null in Hstep. }
    destruct (TryHoldSharedMutex_spec m s Hm Hwf) as (s1 & E & _ & Hwf').
    rewrite E in Hstep. by simplify_eq.
  - destruct (decide (m = nullptr)) as [->|Hm].
    { by rewrite TryReleaseSharedMutex_null in Hstep. }
    destruct (TryReleaseSharedMutex_spec m s Hm Hwf) as (s1 & E & _ & Hwf').
    rewrite E in Hstep. by simplify_eq.
Qed.

Lemma reachable_wf s : Tracker.reachable s → Tracker.wf s.
Proof.
  induction 1 as [|s op r s' tr _ IH Hstep]; [apply wf_Empty|].
  eapply step_wf; eauto.
Qed.

Lemma step_reachable_hold m s r s' tr :
  Tracker.reachable s → Tracker.TryHoldSharedMutex m s = Ok (r, s', tr) →
  Tracker.reachable s'.
Proof. intros Hs E. by eapply (Tracker.reachable_step s (Tracker.Hold m)). Qed.

Lemma step_reachable_release m s r s' tr :
  Tracker.reachable s → Tracker.TryReleaseSharedMutex m s = Ok (r, s', tr) →
  Tracker.reachable s'.
Proof. intros Hs E. by eapply (Tracker.reachable_step s (Tracker.Release m)). Qed.

Section SharedMutexMethods.
Import SharedMutex.
Context (w : TLS) (self : thread) (this : ptr).
Context (Hthis : this ≠ nullptr) (Hreach : Tracker.reachable (w self)).

Ltac run_method :=
  unfold LockShared, LockExclusive, UnlockShared, UnlockExclusive,
    TryLockShared, TryLockExclusive, on_thread;
  run_monad.

(* Acquiring what the thread already holds stops at the DCHECK. *)
Lemma lock_held_fatal :
  this ∈ Tracker.held (w self) →
  LockShared self this w = Fatal ∧ LockExclusive self this w = Fatal.
Proof using Hthis Hreach.
  intros Hin.
  destruct (TryHoldSharedMutex_spec this (w self) Hthis (reachable_wf _ Hreach))
    as (s' & E & _).
  rewrite bool_decide_eq_false_2 in E by set_solver.
  run_method. by rewrite E.
Qed.

Lemma lock_free_ok :
  this ∉ Tracker.held (w self) →
  ∃ s', Tracker.held s' = Tracker.held (w self) ∪ {[this]}
        ∧ Tracker.reachable s'
        ∧ LockShared self this w
          = Ok (tt, <[self := s']> w, [handle_ReaderLock this])
        ∧ LockExclusive self this w
          = Ok (tt, <[self := s']> w, [handle_Lock this]).
Proof using Hthis Hreach.
  intros Hin.
  destruct (TryHoldSharedMutex_spec this (w self) Hthis (reachable_wf _ Hreach))
    as (s' & E & Hheld & _).
  rewrite bool_decide_eq_true_2 in E by done.
  exists s'. split; [done|]. split; [by eapply step_reachable_hold|].
  run_method. by rewrite E.
Qed.

Lemma unlock_free_fatal :
  this ∉ Tracker.held (w self) →
  UnlockShared self this w = Fatal ∧ UnlockExclusive self this w = Fatal.
Proof using Hthis Hreach.
  intros Hin.
  destruct (TryReleaseSharedMutex_spec this (w self) Hthis (reachable_wf _ Hreach))
    as (s' & E & _).
  rewrite bool_decide_eq_false_2 in E by done.
  run_method. by rewrite E.
Qed.

Lemma unlock_held_ok :
  this ∈ Tracker.held (w self) →
  ∃ s', Tracker.held s' = Tracker.held (w self) ∖ {[this]}
        ∧ Tracker.reachable s'
        ∧ UnlockShared self this w
          = Ok (tt, <[self := s']> w, [handle_ReaderUnlock this])
        ∧ UnlockExclusive self this w
          = Ok (tt, <[self := s']> w, [handle_Unlock this]).
Proof using Hthis Hreach.
  intros Hin.
  destruct (TryReleaseSharedMutex_spec this (w self) Hthis (reachable_wf _ Hreach))
    as (s' & E & Hheld & _).
  rewrite bool_decide_eq_true_2 in E by done.
  exists s'. split; [done|]. split; [by eapply step_reachable_release|].
  run_method. by rewrite E.
Qed.

Lemma try_lock_held_fatal (acquired : bool) :
  this ∈ Tracker.held (w self) →
  TryLockShared self this acquired w = Fatal
  ∧ TryLockExclusive self this acquired w = Fatal.
Proof using Hthis.
  clear Hreach. intros Hin. run_method.
  rewrite (SharedMutexNotHeld_spec this (w self) Hthis).
  by rewrite bool_decide_eq_false_2 by set_solver.
Qed.

Lemma try_lock_free_failed :
  this ∉ Tracker.held (w self) →
  TryLockShared self this false w
  = Ok (false, <[self := w self]> w, [handle_ReaderTryLock this])
  ∧ TryLockExclusive self this false w
    = Ok (false, <[self := w self]> w, [handle_TryLock this]).
Proof using Hthis.
  clear Hreach. intros Hin. run_method.
  rewrite (SharedMutexNotHeld_spec this (w self) Hthis).
  by rewrite bool_decide_eq_true_2 by done.
Qed.

Lemma try_lock_free_acquired :
  this ∉ Tracker.held (w self) →
  ∃ s', Tracker.held s' = Tracker.held (w self) ∪ {[this]}
        ∧ Tracker.reachable s'
        ∧ TryLockShared self this true w
          = Ok (true, <[self := s']> (<[self := w self]> w),
                [handle_ReaderTryLock this])
        ∧ TryLockExclusive self this true w
          = Ok (true, <[self := s']> (<[self := w self]> w),
                [handle_TryLock this]).
Proof using Hthis Hreach.
  intros Hin.
  destruct (TryHoldSharedMutex_spec this (w self) Hthis (reachable_wf _ Hreach))
    as (s' & E & Hheld & _).
  rewrite bool_decide_eq_true_2 in E by done.
  exists s'. split; [done|]. split; [by eapply step_reachable_hold|].
  run_method.
  rewrite (SharedMutexNotHeld_spec this (w self) Hthis).
  rewrite bool_decide_eq_true_2 by done. simpl.
  rewrite fn_lookup_insert. by rewrite E.
Qed.

End SharedMutexMethods.

(** ** Claims on the tracker and on SharedMutex *)

(** C9: in every tracker state that sequences of TryHoldSharedMutex and
    TryReleaseSharedMutex reach from the initial state, the slot pointer
    and the set pointer are never both non-null, and an allocated set is
    not empty. *)
Theorem tracker_slot_xor_set (s : Tracker.t) :
  Tracker.reachable s →
  ¬ (Tracker.single_held_shared_mutex s ≠ nullptr
     ∧ Tracker.held_shared_mutexes s ≠ None)
  ∧ ∀ set, Tracker.held_shared_mutexes s = Some set → set ≠ ∅.
Proof.
  intros Hs. destruct (reachable_wf s Hs) as [Hone Hne]. split.
  - intros [Hsingle Hset]. by destruct Hone.
  - intros set Hset ->. by apply Hne.
Qed.

Lemma tracker_slot_xor_set_witness :
  Tracker.reachable (Tracker.mk nullptr (Some {[1%N; 2%N]}))
  ∧ ∀ set,
      Tracker.held_shared_mutexes (Tracker.mk nullptr (Some {[1%N; 2%N]}))
      = Some set → set ≠ ∅.
Proof.
  assert (Hr : Tracker.reachable (Tracker.mk nullptr (Some {[1%N; 2%N]}))).
  { apply (Tracker.reachable_step (Tracker.mk 1%N None) (Tracker.Hold 2%N)
             true _ []).
    - apply (Tracker.reachable_step Tracker.init (Tracker.Hold 1%N) true _ []).
      + apply Tracker.reachable_init.
      + reflexivity.
    - reflexivity. }
  split; [exact Hr|].
  exact (proj2 (tracker_slot_xor_set _ Hr)).
Defined.

(** C10: from a reachable tracker state, holding an instance that is not
    held returns true, releasing it right afterwards returns true, and the
    set of held instances is the original one. *)
Theorem hold_release_restores_held (s : Tracker.t) (m : ptr) :
  Tracker.reachable s → m ≠ nullptr → m ∉ Tracker.held s →
  ∃ s1 s2,
    Tracker.TryHoldSharedMutex m s = Ok (true, s1, [])
    ∧ Tracker.TryReleaseSharedMutex m s1 = Ok (true, s2, [])
    ∧ Tracker.held s2 = Tracker.held s.
Proof.
  intros Hs Hm Hfree.
  destruct (TryHoldSharedMutex_spec m s Hm (reachable_wf s Hs))
    as (s1 & E1 & Hheld1 & Hwf1).
  destruct (TryReleaseSharedMutex_spec m s1 Hm Hwf1) as (s2 & E2 & Hheld2 & _).
  exists s1, s2. split; [|split].
  - by rewrite E1, bool_decide_eq_true_2.
  - rewrite E2, bool_decide_eq_true_2; [done|]. rewrite Hheld1. set_solver.
  - rewrite Hheld2, Hheld1. set_solver.
Qed.

Lemma hold_release_restores_held_witness :
  Tracker.reachable (Tracker.mk 1%N None)
  ∧ 2%N ≠ nullptr
  ∧ (2%N ∉ Tracker.held (Tracker.mk 1%N None))
  ∧ (∃ s1 s2,
      Tracker.TryHoldSharedMutex 2%N (Tracker.mk 1%N None) = Ok (true, s1, [])
      ∧ Tracker.TryReleaseSharedMutex 2%N s1 = Ok (true, s2, [])
      ∧ Tracker.held s2 = Tracker.held (Tracker.mk 1%N None)).
Proof.
  assert (Hr : Tracker.reachable (Tracker.mk 1%N None)).
  { apply (Tracker.reachable_step Tracker.init (Tracker.Hold 1%N) true _ []).
    - apply Tracker.reachable_init.
    - reflexivity. }
  assert (Hm : 2%N ≠ nullptr) by discriminate.
  assert (Hfree : 2%N ∉ Tracker.held (Tracker.mk 1%N None)).
  { apply (bool_decide_unpack _). vm_compute. exact I. }
  split; [exact Hr|]. split; [exact Hm|]. split; [exact Hfree|].
  exact (hold_release_restores_held _ _ Hr Hm Hfree).
Defined.

(** C1: for a thread and an instance, LockShared and LockExclusive stop at
    a DCHECK when the thread's held-set contains the instance and add the
    instance otherwise; UnlockShared and UnlockExclusive stop at a DCHECK
    when the held-set lacks the instance and remove it otherwise.  After an
    acquisition a second one by the same thread, in either mode, stops at
    the DCHECK.  The variables of the other threads are untouched. *)
Theorem SharedMutex_lock_unlock_held_set
  (w : SharedMutex.TLS) (self : thread) (this : ptr) :
  this ≠ nullptr → Tracker.reachable (w self) →
  (this ∈ Tracker.held (w self) →
     SharedMutex.LockShared self this w = Fatal
     ∧ SharedMutex.LockExclusive self this w = Fatal
     ∧ ∃ w',
         SharedMutex.UnlockShared self this w
           = Ok (tt, w', [handle_ReaderUnlock this])
         ∧ SharedMutex.UnlockExclusive self this w
           = Ok (tt, w', [handle_Unlock this])
         ∧ Tracker.held (w' self) = Tracker.held (w self) ∖ {[this]}
         ∧ ∀ t, t ≠ self → w' t = w t)
  ∧ (this ∉ Tracker.held (w self) →
     SharedMutex.UnlockShared self this w = Fatal
     ∧ SharedMutex.UnlockExclusive self this w = Fatal
     ∧ ∃ w',
         SharedMutex.LockShared self this w
           = Ok (tt, w', [handle_ReaderLock this])
         ∧ SharedMutex.LockExclusive self this w
           = Ok (tt, w', [handle_Lock this])
         ∧ Tracker.held (w' self) = Tracker.held (w self) ∪ {[this]}
         ∧ (∀ t, t ≠ self → w' t = w t)
         ∧ SharedMutex.LockShared self this w' = Fatal
         ∧ SharedMutex.LockExclusive self this w' = Fatal).
Proof.
  intros Hthis Hreach. split; intros Hin.
  - destruct (lock_held_fatal w self this Hthis Hreach Hin) as [-> ->].
    do 2 (split; [done|]).
    destruct (unlock_held_ok w self this Hthis Hreach Hin)
      as (s' & Hheld & _ & -> & ->).
    eexists. do 2 (split; [done|]). rewrite fn_lookup_insert. split; [done|].
    intros t Ht. by rewrite fn_lookup_insert_ne.
  - destruct (unlock_free_fatal w self this Hthis Hreach Hin) as [-> ->].
    do 2 (split; [done|]).
    destruct (lock_free_ok w self this Hthis Hreach Hin)
      as (s' & Hheld & Hreach' & -> & ->).
    eexists. do 2 (split; [done|]). rewrite fn_lookup_insert. split; [done|].
    split; [intros t Ht; by rewrite fn_lookup_insert_ne|].
    apply lock_held_fatal; [done|by rewrite fn_lookup_insert|].
    rewrite fn_lookup_insert, Hheld. set_solver.
Qed.

Lemma SharedMutex_lock_unlock_held_set_witness :
  3%N ≠ nullptr
  ∧ Tracker.reachable (SharedMutex.tls_init 0%nat)
  ∧ SharedMutex.UnlockShared 0%nat 3%N SharedMutex.tls_init = Fatal.
Proof.
  assert (Hthis : 3%N ≠ nullptr) by discriminate.
  assert (Hreach : Tracker.reachable (SharedMutex.tls_init 0%nat))
    by apply Tracker.reachable_init.
  assert (Hfree : 3%N ∉ Tracker.held (SharedMutex.tls_init 0%nat)).
  { apply (bool_decide_unpack _). vm_compute. exact I. }
  split; [exact Hthis|]. split; [exact Hreach|].
  exact (proj1 (proj2 (SharedMutex_lock_unlock_held_set
                         SharedMutex.tls_init 0%nat 3%N Hthis Hreach) Hfree)).
Defined.

(** C3: TryLockShared and TryLockExclusive first assert that the calling
    thread does not hold the instance; then, when the native attempt fails,
    they return false and every thread's variables are as before, and when
    it succeeds they return true and the instance joins the held-set. *)
Theorem SharedMutex_try_lock_held_set
  (w : SharedMutex.TLS) (self : thread) (this : ptr) :
  this ≠ nullptr → Tracker.reachable (w self) →
  (this ∈ Tracker.held (w self) →
     ∀ acquired,
       SharedMutex.TryLockShared self this acquired w = Fatal
       ∧ SharedMutex.TryLockExclusive self this acquired w = Fatal)
  ∧ (this ∉ Tracker.held (w self) →
     (∃ w',
         SharedMutex.TryLockShared self this false w
           = Ok (false, w', [handle_ReaderTryLock this])
         ∧ SharedMutex.TryLockExclusive self this false w
           = Ok (false, w', [handle_TryLock this])
         ∧ ∀ t, w' t = w t)
     ∧ (∃ w',
         SharedMutex.TryLockShared self this true w
           = Ok (true, w', [handle_ReaderTryLock this])
         ∧ SharedMutex.TryLockExclusive self this true w
           = Ok (true, w', [handle_TryLock this])
         ∧ Tracker.held (w' self) = Tracker.held (w self) ∪ {[this]}
         ∧ ∀ t, t ≠ self → w' t = w t)).
Proof.
  intros Hthis Hreach. split; intros Hin.
  - intros acquired. by apply try_lock_held_fatal.
  - split.
    + destruct (try_lock_free_failed w self this Hthis Hin) as [-> ->].
      eexists. do 2 (split; [done|]). intros t.
      destruct (decide (t = self)) as [->|Ht];
        [by rewrite fn_lookup_insert|by rewrite fn_lookup_insert_ne].
    + destruct (try_lock_free_acquired w self this Hthis Hreach Hin)
        as (s' & Hheld & _ & -> & ->).
      eexists. do 2 (split; [done|]). rewrite fn_lookup_insert.
      split; [done|]. intros t Ht. by rewrite !fn_lookup_insert_ne.
Qed.

Lemma SharedMutex_try_lock_held_set_witness :
  3%N ≠ nullptr
  ∧ Tracker.reachable (SharedMutex.tls_init 0%nat)
  ∧ ∃ w',
      SharedMutex.TryLockShared 0%nat 3%N false SharedMutex.tls_init
        = Ok (false, w', [handle_ReaderTryLock 3%N])
      ∧ SharedMutex.TryLockExclusive 0%nat 3%N false SharedMutex.tls_init
        = Ok (false, w', [handle_TryLock 3%N])
      ∧ ∀ t, w' t = SharedMutex.tls_init t.
Proof.
  assert (Hthis : 3%N ≠ nullptr) by discriminate.
  assert (Hreach : Tracker.reachable (SharedMutex.tls_init 0%nat))
    by apply Tracker.reachable_init.
  assert (Hfree : 3%N ∉ Tracker.held (SharedMutex.tls_init 0%nat)).
  { apply (bool_decide_unpack _). vm_compute. exact I. }
  split; [exact Hthis|]. split; [exact Hreach|].
  exact (proj1 (proj2 (SharedMutex_try_lock_held_set
                         SharedMutex.tls_init 0%nat 3%N Hthis Hreach) Hfree)).
Defined.

(** C2, as amended: a reachable tracker state has one of three shapes, and
    the two maintenance functions move between them as follows.  With
    neither variable set, holding fills the slot.  With the slot set,
    holding another instance moves both into a new set and clears the slot,
    and releasing the slot's instance clears it.  With the set allocated,
    holding inserts into the set (the slot stays clear), releasing a member
    leaves the remaining members in the set, also when one is left, and
    releasing the last member frees the set and leaves neither variable
    set. *)
Theorem tracker_representation_transitions (s : Tracker.t) (m : ptr) :
  Tracker.reachable s → m ≠ nullptr →
  (s = Tracker.mk nullptr None
   ∧ Tracker.TryHoldSharedMutex m s = Ok (true, Tracker.mk m None, [])
   ∧ Tracker.TryReleaseSharedMutex m s = Ok (false, s, []))
  ∨ (∃ a, a ≠ nullptr ∧ s = Tracker.mk a None
     ∧ Tracker.TryHoldSharedMutex a s = Ok (false, s, [])
     ∧ (m ≠ a → Tracker.TryHoldSharedMutex m s
                = Ok (true, Tracker.mk nullptr (Some {[a; m]}), []))
     ∧ Tracker.TryReleaseSharedMutex a s
       = Ok (true, Tracker.mk nullptr None, [])
     ∧ (m ≠ a → Tracker.TryReleaseSharedMutex m s = Ok (false, s, [])))
  ∨ (∃ S, S ≠ ∅ ∧ s = Tracker.mk nullptr (Some S)
     ∧ Tracker.TryHoldSharedMutex m s
       = Ok (bool_decide (m ∉ S), Tracker.mk nullptr (Some ({[m]} ∪ S)), [])
     ∧ (m ∈ S → S ≠ {[m]} →
        Tracker.TryReleaseSharedMutex m s
        = Ok (true, Tracker.mk nullptr (Some (S ∖ {[m]})), []))
     ∧ (S = {[m]} →
        Tracker.TryReleaseSharedMutex m s
        = Ok (true, Tracker.mk nullptr None, []))
     ∧ (m ∉ S → Tracker.TryReleaseSharedMutex m s = Ok (false, s, []))).
Proof.
  intros Hs Hm.
  destruct (wf_cases s (reachable_wf s Hs)) as [->|[(a & Ha & ->)|(S & HS & ->)]].
  - left. split; [done|]. split; [by apply hold_Empty|].
    apply release_Single_other; congruence.
  - right; left. exists a. do 2 (split; [done|]).
    split; [by apply hold_Single_same|].
    split; [intros; apply hold_Single_other; congruence|].
    split; [by apply release_Single|].
    intros; apply release_Single_other; congruence.
  - right; right. exists S. do 2 (split; [done|]).
    split; [by apply hold_Many|].
    split; [|split].
    + intros Hin Hmore. apply release_Many_more; [done..|].
      intros He. apply Hmore. apply set_eq. intros x.
      rewrite elem_of_singleton. split; [|by intros ->].
      intros Hx. destruct (decide (x = m)) as [|Hne]; [done|].
      assert (Hd : x ∈ S ∖ {[m]}) by set_solver.
      rewrite He in Hd. set_solver.
    + intros ->. apply release_Many_last; [done|set_solver..].
    + intros Hout. by apply release_Many_absent.
Qed.

Lemma tracker_representation_transitions_witness :
  Tracker.reachable (Tracker.mk 1%N None)
  ∧ 2%N ≠ nullptr
  ∧ Tracker.TryHoldSharedMutex 2%N (Tracker.mk 1%N None)
    = Ok (true, Tracker.mk nullptr (Some {[1%N; 2%N]}), []).
Proof.
  assert (Hr : Tracker.reachable (Tracker.mk 1%N None)).
  { apply (Tracker.reachable_step Tracker.init (Tracker.Hold 1%N) true _ []).
    - apply Tracker.reachable_init.
    - reflexivity. }
  assert (Hm : 2%N ≠ nullptr) by discriminate.
  split; [exact Hr|]. split; [exact Hm|].
  destruct (tracker_representation_transitions _ _ Hr Hm)
    as [[E _]|[(a & _ & E & _ & Hhold & _)|(S & _ & E & _)]].
  - discriminate E.
  - injection E as <-. apply Hhold. discriminate.
  - discriminate E.
Defined.

(** C2, as stated, fails: after holding two instances and releasing one,
    the thread holds exactly one instance, yet it stays in the set and the
    slot is clear; the representation is not Single. *)
Lemma tracker_shrink_stays_in_set :
  Tracker.run [Tracker.Hold 1%N; Tracker.Hold 2%N; Tracker.Release 1%N]
    Tracker.init
  = Ok (Tracker.mk nullptr (Some {[2%N]}))
  ∧ Tracker.held (Tracker.mk nullptr (Some {[2%N]})) = {[2%N]}
  ∧ TrackerSpec.variant_of {[2%N]} = Tracker.Single 2%N
  ∧ Tracker.repr (Tracker.mk nullptr (Some {[2%N]}))
    = Some (Tracker.Many {[2%N]})
  ∧ Tracker.repr (Tracker.mk nullptr (Some {[2%N]}))
    ≠ Some (TrackerSpec.variant_of {[2%N]}).
Proof.
  repeat split; try (vm_compute; reflexivity).
  vm_compute. discriminate.
Qed.

(** ** Claims on Mutex *)

Ltac run_mutex :=
  unfold Mutex.Lock, Mutex.Unlock, Mutex.TryLock, Mutex.constructor,
    Mutex.destructor, Mutex.AssertUnheldAndMark, Mutex.AssertHeldAndUnmark
    in *;
  run_monad.

Lemma Mutex_step_level this op s s' tr :
  Mutex.step this op s = Ok (tt, s', tr) →
  Mutex.level_ s = 0 ∨ Mutex.level_ s = 1 →
  Mutex.level_ s' = 0 ∨ Mutex.level_ s' = 1.
Proof.
  destruct s as [l]. intros E Hl.
  destruct op as [| |[]]; simpl in *; run_mutex; decide_tests;
    simplify_eq; simpl; auto.
Qed.

Lemma Mutex_reachable_level this s :
  Mutex.reachable this s → Mutex.level_ s = 0 ∨ Mutex.level_ s = 1.
Proof.
  induction 1 as [s0 s tr E|s op s' tr _ IH E].
  - run_mutex. simplify_eq. by left.
  - by eapply Mutex_step_level.
Qed.

(** C4: the counter of a Mutex is 0 after construction; Lock and a
    successful TryLock stop at a DCHECK unless it is 0 and set it to 1;
    Unlock stops at a DCHECK unless it is 1 and sets it to 0; the destructor
    stops at a DCHECK unless it is 0; a failed TryLock leaves it alone.
    Hence it is 0 or 1 in every state an instance reaches. *)
Theorem Mutex_level_zero_or_one (this : ptr) (s : Mutex.t) :
  (∀ s0, Mutex.constructor s0 = Ok (tt, Mutex.mk 0, []))
  ∧ (Mutex.reachable this s → Mutex.level_ s = 0 ∨ Mutex.level_ s = 1)
  ∧ Mutex.Lock this s
    = (if Mutex.level_ s =? 0 then Ok (tt, Mutex.mk 1, [handle_Lock this])
       else Fatal)
  ∧ Mutex.TryLock this true s
    = (if Mutex.level_ s =? 0 then Ok (true, Mutex.mk 1, [handle_TryLock this])
       else Fatal)
  ∧ Mutex.TryLock this false s = Ok (false, s, [handle_TryLock this])
  ∧ Mutex.Unlock this s
    = (if Mutex.level_ s =? 1 then Ok (tt, Mutex.mk 0, [handle_Unlock this])
       else Fatal)
  ∧ Mutex.destructor s
    = (if Mutex.level_ s =? 0 then Ok (tt, s, []) else Fatal).
Proof.
  split; [done|]. split; [apply Mutex_reachable_level|].
  destruct s as [l]; run_mutex.
  repeat split; by decide_tests.
Qed.

Lemma Mutex_level_zero_or_one_witness :
  Mutex.reachable 5%N (Mutex.mk 1)
  ∧ (Mutex.level_ (Mutex.mk 1) = 0 ∨ Mutex.level_ (Mutex.mk 1) = 1).
Proof.
  assert (Hr : Mutex.reachable 5%N (Mutex.mk 1)).
  { apply (Mutex.reachable_step 5%N (Mutex.mk 0) Mutex.OpLock _
             [handle_Lock 5%N]).
    - apply (Mutex.reachable_new 5%N (Mutex.mk 7) _ []). reflexivity.
    - reflexivity. }
  split; [exact Hr|].
  exact (proj1 (proj2 (Mutex_level_zero_or_one 5%N (Mutex.mk 1))) Hr).
Defined.

(** C6: Unlock on a Mutex whose counter is 0, such as a fresh instance,
    stops at the DCHECK; Unlock right after a Lock or a successful TryLock
    passes it and leaves the counter at 0. *)
Theorem Mutex_unlock_needs_lock (this : ptr) (s : Mutex.t) :
  (Mutex.level_ s = 0 → Mutex.Unlock this s = Fatal)
  ∧ (∀ s1 tr, Mutex.constructor s = Ok (tt, s1, tr) →
              Mutex.Unlock this s1 = Fatal)
  ∧ (∀ s1 tr, Mutex.Lock this s = Ok (tt, s1, tr) →
              Mutex.Unlock this s1 = Ok (tt, Mutex.mk 0, [handle_Unlock this]))
  ∧ (∀ s1 tr, Mutex.TryLock this true s = Ok (true, s1, tr) →
              Mutex.Unlock this s1 = Ok (tt, Mutex.mk 0, [handle_Unlock this])).
Proof.
  destruct s as [l]. repeat split.
  - simpl. intros ->. run_mutex. by decide_tests.
  - intros s1 tr E. run_mutex. simplify_eq. by decide_tests.
  - intros s1 tr E. run_mutex. by decide_tests.
  - intros s1 tr E. run_mutex. by decide_tests.
Qed.

Lemma Mutex_unlock_needs_lock_witness :
  Mutex.level_ (Mutex.mk 0) = 0
  ∧ Mutex.Unlock 5%N (Mutex.mk 0) = Fatal
  ∧ Mutex.Lock 5%N (Mutex.mk 0) = Ok (tt, Mutex.mk 1, [handle_Lock 5%N])
  ∧ Mutex.Unlock 5%N (Mutex.mk 1) = Ok (tt, Mutex.mk 0, [handle_Unlock 5%N]).
Proof.
  assert (H0 : Mutex.level_ (Mutex.mk 0) = 0) by reflexivity.
  assert (HL : Mutex.Lock 5%N (Mutex.mk 0)
               = Ok (tt, Mutex.mk 1, [handle_Lock 5%N])) by reflexivity.
  split; [exact H0|].
  split; [exact (proj1 (Mutex_unlock_needs_lock 5%N (Mutex.mk 0)) H0)|].
  split; [exact HL|].
  exact (proj1 (proj2 (proj2 (Mutex_unlock_needs_lock 5%N (Mutex.mk 0))))
           _ _ HL).
Defined.

(** ** Claims on RecursiveMutex *)

Ltac run_recursive :=
  unfold RecursiveMutex.constructor, RecursiveMutex.destructor,
    RecursiveMutex.Lock, RecursiveMutex.Unlock, RecursiveMutex.TryLock,
    RecursiveMutex.native_ok, RecursiveMutex.native_acquired,
    RecursiveMutex.native_busy, RecursiveMutex.init_ok in *;
  unfold RecursiveMutex.constructor_POSIX, RecursiveMutex.destructor_POSIX,
    RecursiveMutex.Lock_POSIX, RecursiveMutex.Unlock_POSIX,
    RecursiveMutex.TryLock_POSIX, RecursiveMutex.constructor_WIN,
    RecursiveMutex.destructor_WIN, RecursiveMutex.Lock_WIN,
    RecursiveMutex.Unlock_WIN, RecursiveMutex.TryLock_WIN in *;
  unfold RecursiveMutex.InitializeRecursiveNativeHandle,
    RecursiveMutex.DestroyNativeHandle, RecursiveMutex.LockNativeHandle,
    RecursiveMutex.UnlockNativeHandle, RecursiveMutex.TryLockNativeHandle,
    RecursiveMutex.incr_level, RecursiveMutex.decr_level,
    RecursiveMutex.EBUSY in *;
  run_monad.

Lemma RecursiveMutex_step_level os this op s s' tr :
  RecursiveMutex.step os this op s = Ok (tt, s', tr) →
  0 ≤ RecursiveMutex.level_ s → 0 ≤ RecursiveMutex.level_ s'.
Proof.
  destruct s as [l]. intros E Hl.
  destruct os, op as [result|result|result]; simpl in *; run_recursive;
    decide_tests; simplify_eq; simpl; lia.
Qed.

Lemma RecursiveMutex_reachable_level os this s :
  RecursiveMutex.reachable os this s → 0 ≤ RecursiveMutex.level_ s.
Proof.
  induction 1 as [r s0 s tr E|s op s' tr _ IH E].
  - destruct os, r as [r1 r2 r3 r4]; run_recursive; decide_tests;
      by simplify_eq.
  - by eapply RecursiveMutex_step_level.
Qed.

(** C5: the depth counter of a RecursiveMutex is 0 after construction and
    never negative afterwards.  Lock and a successful TryLock add one to
    it, a failed TryLock leaves it alone, Unlock stops at a DCHECK unless
    it is positive and then subtracts one, and the destructor stops at a
    DCHECK unless it is 0.  (Adding one to the largest int is undefined.) *)
Theorem RecursiveMutex_depth_counter
  (os : RecursiveMutex.Platform) (this : ptr) (s : RecursiveMutex.t)
  (result : Z) :
  (∀ r s0, RecursiveMutex.init_ok os r = true →
     ∃ tr, RecursiveMutex.constructor os this r s0
           = Ok (tt, RecursiveMutex.mk 0, tr))
  ∧ (RecursiveMutex.reachable os this s → 0 ≤ RecursiveMutex.level_ s)
  ∧ (RecursiveMutex.native_ok os result = true →
     0 ≤ RecursiveMutex.level_ s < INT_MAX →
     ∃ tr, RecursiveMutex.Lock os this result s
           = Ok (tt, RecursiveMutex.mk (RecursiveMutex.level_ s + 1), tr))
  ∧ (RecursiveMutex.native_acquired os result = true →
     0 ≤ RecursiveMutex.level_ s < INT_MAX →
     ∃ tr, RecursiveMutex.TryLock os this result s
           = Ok (true, RecursiveMutex.mk (RecursiveMutex.level_ s + 1), tr))
  ∧ (RecursiveMutex.native_busy os result = true →
     ∃ tr, RecursiveMutex.TryLock os this result s = Ok (false, s, tr))
  ∧ (RecursiveMutex.level_ s ≤ 0 →
     RecursiveMutex.Unlock os this result s = Fatal)
  ∧ (RecursiveMutex.native_ok os result = true →
     0 < RecursiveMutex.level_ s →
     ∃ tr, RecursiveMutex.Unlock os this result s
           = Ok (tt, RecursiveMutex.mk (RecursiveMutex.level_ s - 1), tr))
  ∧ (RecursiveMutex.level_ s ≠ 0 →
     RecursiveMutex.destructor os this result s = Fatal)
  ∧ (RecursiveMutex.native_ok os result = true →
     RecursiveMutex.level_ s = 0 →
     ∃ tr, RecursiveMutex.destructor os this result s = Ok (tt, s, tr)).
Proof.
  split.
  { intros [r1 r2 r3 r4] s0 Hr. destruct os; run_recursive.
    - repeat (apply andb_prop in Hr as [Hr ?]).
      decide_tests. by eexists.
    - by eexists. }
  split; [apply RecursiveMutex_reachable_level|].
  destruct s as [l]; simpl.
  repeat split; intros; destruct os; run_recursive; decide_tests;
    try done; by eexists.
Qed.

Lemma RecursiveMutex_depth_counter_witness :
  RecursiveMutex.reachable RecursiveMutex.V8_OS_POSIX 5%N (RecursiveMutex.mk 1)
  ∧ RecursiveMutex.native_ok RecursiveMutex.V8_OS_POSIX 0 = true
  ∧ 0 ≤ RecursiveMutex.level_ (RecursiveMutex.mk 1) < INT_MAX
  ∧ 0 ≤ RecursiveMutex.level_ (RecursiveMutex.mk 1)
  ∧ ∃ tr, RecursiveMutex.Lock RecursiveMutex.V8_OS_POSIX 5%N 0
            (RecursiveMutex.mk 1)
          = Ok (tt, RecursiveMutex.mk
                      (RecursiveMutex.level_ (RecursiveMutex.mk 1) + 1), tr).
Proof.
  assert (Hr : RecursiveMutex.reachable RecursiveMutex.V8_OS_POSIX 5%N
                 (RecursiveMutex.mk 1)).
  { eapply (RecursiveMutex.reachable_step _ _ (RecursiveMutex.mk 0)
              (RecursiveMutex.OpLock 0)).
    - eapply (RecursiveMutex.reachable_new _ _
                (RecursiveMutex.mk_init_results 0 0 0 0)
                (RecursiveMutex.mk 7)).
      reflexivity.
    - reflexivity. }
  assert (Hok : RecursiveMutex.native_ok RecursiveMutex.V8_OS_POSIX 0 = true)
    by reflexivity.
  assert (Hl : 0 ≤ RecursiveMutex.level_ (RecursiveMutex.mk 1) < INT_MAX)
    by (unfold INT_MAX; simpl; lia).
  pose proof (RecursiveMutex_depth_counter RecursiveMutex.V8_OS_POSIX 5%N
                (RecursiveMutex.mk 1) 0) as (_ & Hinv & Hlock & _).
  split; [exact Hr|]. split; [exact Hok|]. split; [exact Hl|].
  split; [exact (Hinv Hr)|exact (Hlock Hok Hl)].
Defined.

(** ** Claims on SpinningMutex *)

Lemma Lock_DARWIN_trace (sym lock_ : ptr) :
  SpinningMutex.Lock_DARWIN sym lock_ tt
  = Ok (tt, tt,
        [weak_symbol_test;
         if bool_decide (sym = nullptr) then os_unfair_lock_lock_call lock_
         else os_unfair_lock_lock_with_options_call lock_ 0x50000]).
Proof.
  unfold SpinningMutex.Lock_DARWIN. run_monad. by case_bool_decide.
Qed.

Lemma Lock_DARWIN_times_trace (sym lock_ : ptr) (n : nat) :
  SpinningMutex.Lock_DARWIN_times sym n lock_ tt
  = Ok (tt, tt,
        concat (replicate n
          (SpinningMutex.trace_of (SpinningMutex.Lock_DARWIN sym lock_)))).
Proof.
  induction n as [|n IH]; [done|].
  simpl SpinningMutex.Lock_DARWIN_times.
  unfold SpinningMutex.trace_of in *.
  unfold mbind, M_bind. rewrite Lock_DARWIN_trace. cbv iota beta.
  rewrite IH. by rewrite Lock_DARWIN_trace.
Qed.

(** C7: on Darwin, Lock looks at the address of the weak symbol
    os_unfair_lock_lock_with_options; when it is set the lock is taken
    through it with an options word whose bits are those of the
    data-synchronization and adaptive-spin flags together, and when it is
    null the plain os_unfair_lock_lock is called, which takes no options. *)
Theorem SpinningMutex_Lock_probes_weak_symbol (sym lock_ : ptr) :
  (sym ≠ nullptr →
   ∃ options,
     SpinningMutex.Lock true sym lock_ tt
     = Ok (tt, tt, [weak_symbol_test;
                    os_unfair_lock_lock_with_options_call lock_ options])
     ∧ options = Z.lor SpinningMutex.OS_UNFAIR_LOCK_DATA_SYNCHRONIZATION
                       SpinningMutex.OS_UNFAIR_LOCK_ADAPTIVE_SPIN
     ∧ ∀ i, Z.testbit options i
            = Z.testbit SpinningMutex.OS_UNFAIR_LOCK_DATA_SYNCHRONIZATION i
              || Z.testbit SpinningMutex.OS_UNFAIR_LOCK_ADAPTIVE_SPIN i)
  ∧ (sym = nullptr →
     SpinningMutex.Lock true sym lock_ tt
     = Ok (tt, tt, [weak_symbol_test; os_unfair_lock_lock_call lock_])).
Proof.
  unfold SpinningMutex.Lock. rewrite Lock_DARWIN_trace. split.
  - intros Hsym. rewrite bool_decide_eq_false_2 by done.
    exists 0x50000. split; [done|]. split; [done|].
    intros i. change 0x50000
      with (Z.lor SpinningMutex.OS_UNFAIR_LOCK_DATA_SYNCHRONIZATION
                  SpinningMutex.OS_UNFAIR_LOCK_ADAPTIVE_SPIN).
    apply Z.lor_spec.
  - intros ->. by rewrite bool_decide_eq_true_2.
Qed.

Lemma SpinningMutex_Lock_probes_weak_symbol_witness :
  4096%N ≠ nullptr
  ∧ ∃ options,
      SpinningMutex.Lock true 4096%N 7%N tt
      = Ok (tt, tt, [weak_symbol_test;
                     os_unfair_lock_lock_with_options_call 7%N options])
      ∧ options = Z.lor SpinningMutex.OS_UNFAIR_LOCK_DATA_SYNCHRONIZATION
                        SpinningMutex.OS_UNFAIR_LOCK_ADAPTIVE_SPIN
      ∧ ∀ i, Z.testbit options i
             = Z.testbit SpinningMutex.OS_UNFAIR_LOCK_DATA_SYNCHRONIZATION i
               || Z.testbit SpinningMutex.OS_UNFAIR_LOCK_ADAPTIVE_SPIN i.
Proof.
  assert (Hsym : 4096%N ≠ nullptr) by discriminate.
  split; [exact Hsym|].
  exact (proj1 (SpinningMutex_Lock_probes_weak_symbol 4096%N 7%N) Hsym).
Defined.

(** C8, as stated, fails: two calls of Lock in one process look at the weak
    symbol twice. *)
Lemma SpinningMutex_Lock_probes_twice :
  SpinningMutex.trace_of (SpinningMutex.Lock_DARWIN_times 4096%N 2 7%N)
  = [weak_symbol_test; os_unfair_lock_lock_with_options_call 7%N 0x50000;
     weak_symbol_test; os_unfair_lock_lock_with_options_call 7%N 0x50000]
  ∧ SpinningMutex.symbol_tests
      (SpinningMutex.trace_of (SpinningMutex.Lock_DARWIN_times 4096%N 2 7%N))
    = 2%nat
  ∧ ¬ (SpinningMutex.symbol_tests
         (SpinningMutex.trace_of
            (SpinningMutex.Lock_DARWIN_times 4096%N 2 7%N)) ≤ 1)%nat.
Proof.
  split; [by vm_compute|]. split; [by vm_compute|].
  vm_compute. lia.
Qed.

(** C8, as amended: every call of Lock looks at the address of the weak
    symbol once and then branches on it, so [n] calls look at it [n] times;
    nothing is resolved beforehand or kept between calls, and since the
    address does not change every call makes the same native call. *)
Theorem SpinningMutex_Lock_probes_every_call (sym lock_ : ptr) (n : nat) :
  SpinningMutex.trace_of (SpinningMutex.Lock_DARWIN_times sym n lock_)
  = concat (replicate n
      (SpinningMutex.trace_of (SpinningMutex.Lock_DARWIN sym lock_)))
  ∧ SpinningMutex.symbol_tests
      (SpinningMutex.trace_of (SpinningMutex.Lock_DARWIN_times sym n lock_))
    = n
  ∧ SpinningMutex.symbol_tests
      (SpinningMutex.trace_of (SpinningMutex.Lock_DARWIN sym lock_)) = 1%nat.
Proof.
  assert (Hone : SpinningMutex.symbol_tests
            (SpinningMutex.trace_of (SpinningMutex.Lock_DARWIN sym lock_))
          = 1%nat).
  { unfold SpinningMutex.trace_of. rewrite Lock_DARWIN_trace.
    unfold SpinningMutex.symbol_tests. by case_bool_decide. }
  assert (Htr : SpinningMutex.trace_of
            (SpinningMutex.Lock_DARWIN_times sym n lock_)
          = concat (replicate n
              (SpinningMutex.trace_of (SpinningMutex.Lock_DARWIN sym lock_)))).
  { unfold SpinningMutex.trace_of at 1. by rewrite Lock_DARWIN_times_trace. }
  split; [done|]. split; [|done].
  rewrite Htr. unfold SpinningMutex.symbol_tests in *.
  induction n as [|n IH]; [done|].
  simpl. rewrite list.filter_app, List.length_app, Hone.
  simpl. f_equal. apply IH.
  unfold SpinningMutex.trace_of at 1. by rewrite Lock_DARWIN_times_trace.
Qed.

(** ** Further properties of the tracker *)

(** X1: in a reachable tracker state TryHoldSharedMutex passes its
    DCHECKs, makes no native call, returns true exactly when the instance
    was not held, and afterwards the instance is held together with what
    was held before. *)
Theorem TryHoldSharedMutex_contract (s : Tracker.t) (m : ptr) :
  Tracker.reachable s → m ≠ nullptr →
  ∃ s', Tracker.TryHoldSharedMutex m s
        = Ok (bool_decide (m ∉ Tracker.held s), s', [])
        ∧ Tracker.held s' = Tracker.held s ∪ {[m]}.
Proof.
  intros Hs Hm.
  destruct (TryHoldSharedMutex_spec m s Hm (reachable_wf s Hs))
    as (s' & E & Hheld & _).
  by exists s'.
Qed.

Lemma TryHoldSharedMutex_contract_witness :
  Tracker.reachable Tracker.init ∧ 4%N ≠ nullptr
  ∧ ∃ s', Tracker.TryHoldSharedMutex 4%N Tracker.init
          = Ok (bool_decide (4%N ∉ Tracker.held Tracker.init), s', [])
          ∧ Tracker.held s' = Tracker.held Tracker.init ∪ {[4%N]}.
Proof.
  assert (Hm : 4%N ≠ nullptr) by discriminate.
  split; [apply Tracker.reachable_init|]. split; [exact Hm|].
  exact (TryHoldSharedMutex_contract _ _ Tracker.reachable_init Hm).
Defined.

(** X2: in a reachable tracker state TryReleaseSharedMutex passes its
    DCHECK, makes no native call, returns true exactly when the instance
    was held, and afterwards the instance is not held and every other
    instance is held as before. *)
Theorem TryReleaseSharedMutex_contract (s : Tracker.t) (m : ptr) :
  Tracker.reachable s → m ≠ nullptr →
  ∃ s', Tracker.TryReleaseSharedMutex m s
        = Ok (bool_decide (m ∈ Tracker.held s), s', [])
        ∧ Tracker.held s' = Tracker.held s ∖ {[m]}.
Proof.
  intros Hs Hm.
  destruct (TryReleaseSharedMutex_spec m s Hm (reachable_wf s Hs))
    as (s' & E & Hheld & _).
  by exists s'.
Qed.

Lemma TryReleaseSharedMutex_contract_witness :
  Tracker.reachable Tracker.init ∧ 4%N ≠ nullptr
  ∧ ∃ s', Tracker.TryReleaseSharedMutex 4%N Tracker.init
          = Ok (bool_decide (4%N ∈ Tracker.held Tracker.init), s', [])
          ∧ Tracker.held s' = Tracker.held Tracker.init ∖ {[4%N]}.
Proof.
  assert (Hm : 4%N ≠ nullptr) by discriminate.
  split; [apply Tracker.reachable_init|]. split; [exact Hm|].
  exact (TryReleaseSharedMutex_contract _ _ Tracker.reachable_init Hm).
Defined.

(** X3: SharedMutexNotHeld is a query: in any state of the two variables,
    for a non-null instance it leaves them as they are, makes no native
    call, and returns true exactly when the instance is neither in the slot
    nor in the set. *)
Theorem SharedMutexNotHeld_query (s : Tracker.t) (m : ptr) :
  m ≠ nullptr →
  Tracker.SharedMutexNotHeld m s
  = Ok (bool_decide (m ∉ Tracker.held s), s, []).
Proof. apply SharedMutexNotHeld_spec. Qed.

Lemma SharedMutexNotHeld_query_witness :
  4%N ≠ nullptr
  ∧ Tracker.SharedMutexNotHeld 4%N (Tracker.mk 4%N None)
    = Ok (bool_decide (4%N ∉ Tracker.held (Tracker.mk 4%N None)),
          Tracker.mk 4%N None, []).
Proof.
  assert (Hm : 4%N ≠ nullptr) by discriminate.
  split; [exact Hm|]. exact (SharedMutexNotHeld_query _ _ Hm).
Defined.

(** X4: a null argument stops each of the three tracker functions at
    DCHECK_NOT_NULL, whatever the state. *)
Theorem tracker_null_argument_fatal (s : Tracker.t) :
  Tracker.SharedMutexNotHeld nullptr s = Fatal
  ∧ Tracker.TryHoldSharedMutex nullptr s = Fatal
  ∧ Tracker.TryReleaseSharedMutex nullptr s = Fatal.
Proof.
  split; [|split].
  - unfold Tracker.SharedMutexNotHeld. by run_monad.
  - apply TryHoldSharedMutex_null.
  - apply TryReleaseSharedMutex_null.
Qed.

(** X5: a call that returns false changes nothing: holding an instance
    that is held, or releasing one that is not, leaves the slot and the set
    exactly as they were. *)
Theorem tracker_refused_call_keeps_state (s : Tracker.t) (m : ptr) :
  Tracker.reachable s → m ≠ nullptr →
  (m ∈ Tracker.held s → Tracker.TryHoldSharedMutex m s = Ok (false, s, []))
  ∧ (m ∉ Tracker.held s →
     Tracker.TryReleaseSharedMutex m s = Ok (false, s, [])).
Proof.
  intros Hs Hm.
  destruct (wf_cases s (reachable_wf s Hs))
    as [->|[(a & Ha & ->)|(S & HS & ->)]].
  - rewrite held_Empty. split; [set_solver|].
    intros _. apply release_Single_other; congruence.
  - rewrite held_Single by done. split.
    + intros ->%elem_of_singleton. by apply hold_Single_same.
    + intros Hne. apply release_Single_other; [done|set_solver].
  - rewrite held_Many. split.
    + intros Hin. rewrite hold_Many by done.
      rewrite bool_decide_eq_false_2 by auto.
      replace ({[m]} ∪ S) with S; [done|]. set_solver.
    + intros Hout. by apply release_Many_absent.
Qed.

Lemma tracker_refused_call_keeps_state_witness :
  Tracker.reachable Tracker.init ∧ 4%N ≠ nullptr
  ∧ (4%N ∉ Tracker.held Tracker.init)
  ∧ Tracker.TryReleaseSharedMutex 4%N Tracker.init
    = Ok (false, Tracker.init, []).
Proof.
  assert (Hm : 4%N ≠ nullptr) by discriminate.
  assert (Hfree : 4%N ∉ Tracker.held Tracker.init).
  { apply (bool_decide_unpack _). vm_compute. exact I. }
  split; [apply Tracker.reachable_init|]. split; [exact Hm|].
  split; [exact Hfree|].
  exact (proj2 (tracker_refused_call_keeps_state _ _
                  Tracker.reachable_init Hm) Hfree).
Defined.

(** X6: a reachable tracker state holds nothing exactly when both
    variables are null: once the last instance is released the set has
    been deleted, whatever the order of the calls before. *)
Theorem tracker_nothing_held_iff_initial (s : Tracker.t) :
  Tracker.reachable s →
  Tracker.held s = ∅ ↔ s = Tracker.init.
Proof.
  intros Hs. split; [|intros ->; apply held_Empty].
  destruct (wf_cases s (reachable_wf s Hs))
    as [->|[(a & Ha & ->)|(S & HS & ->)]]; [done|..].
  - rewrite held_Single by done. intros He.
    assert (Hin : a ∈ ({[a]} : gset ptr)) by set_solver.
    rewrite He in Hin. set_solver.
  - rewrite held_Many. by intros ->.
Qed.

Lemma tracker_nothing_held_iff_initial_witness :
  Tracker.reachable Tracker.init
  ∧ (Tracker.held Tracker.init = ∅ ↔ Tracker.init = Tracker.init).
Proof.
  split; [apply Tracker.reachable_init|].
  exact (tracker_nothing_held_iff_initial _ Tracker.reachable_init).
Defined.

Lemma run_refines (ops : list Tracker.Op) (s : Tracker.t) :
  Tracker.reachable s → Forall (λ op, HeldSet.arg op ≠ nullptr) ops →
  ∃ s', Tracker.run ops s = Ok s'
        ∧ Tracker.held s' = HeldSet.apply_all ops (Tracker.held s)
        ∧ Tracker.reachable s'.
Proof.
  intros Hs Hops. revert s Hs.
  induction Hops as [|op ops Hop _ IH]; intros s Hs; [by exists s|].
  simpl. destruct op as [m|m]; simpl in *.
  - destruct (TryHoldSharedMutex_spec m s Hop (reachable_wf s Hs))
      as (s1 & E & Hheld & _).
    rewrite E. destruct (IH s1) as (s' & Hrun & Hh & Hr).
    { by eapply step_reachable_hold. }
    exists s'. by rewrite <- Hheld.
  - destruct (TryReleaseSharedMutex_spec m s Hop (reachable_wf s Hs))
      as (s1 & E & Hheld & _).
    rewrite E. destruct (IH s1) as (s' & Hrun & Hh & Hr).
    { by eapply step_reachable_release. }
    exists s'. by rewrite <- Hheld.
Qed.

Lemma run_null (ops : list Tracker.Op) (s : Tracker.t) :
  Tracker.reachable s → Exists (λ op, HeldSet.arg op = nullptr) ops →
  Tracker.run ops s = Fatal.
Proof.
  intros Hs Hops. revert s Hs.
  induction ops as [|op ops IH]; intros s Hs; [by inversion Hops|].
  simpl. destruct (decide (HeldSet.arg op = nullptr)) as [Hn|Hn].
  - destruct op as [m|m]; simpl in *; subst.
    + by rewrite TryHoldSharedMutex_null.
    + by rewrite TryReleaseSharedMutex_null.
  - apply Exists_cons in Hops as [?|Hops]; [done|].
    destruct op as [m|m]; simpl in *.
    + destruct (TryHoldSharedMutex_spec m s Hn (reachable_wf s Hs))
        as (s1 & E & _). rewrite E. apply IH; [done|].
      by eapply step_reachable_hold.
    + destruct (TryReleaseSharedMutex_spec m s Hn (reachable_wf s Hs))
        as (s1 & E & _). rewrite E. apply IH; [done|].
      by eapply step_reachable_release.
Qed.

Lemma apply_all_hold (ms : list ptr) (H : gset ptr) :
  HeldSet.apply_all (Tracker.Hold <$> ms) H = H ∪ list_to_set ms.
Proof.
  unfold HeldSet.apply_all. revert H.
  induction ms as [|m ms IH]; intros H; simpl; [set_solver|].
  rewrite IH. set_solver.
Qed.

Lemma apply_all_release (ms : list ptr) (H : gset ptr) :
  HeldSet.apply_all (Tracker.Release <$> ms) H = H ∖ list_to_set ms.
Proof.
  unfold HeldSet.apply_all. revert H.
  induction ms as [|m ms IH]; intros H; simpl; [set_solver|].
  rewrite IH. set_solver.
Qed.

(** X7: the two variables implement a set.  From a reachable state, a
    sequence of hold and release calls whose arguments are all non-null
    passes every DCHECK and ends holding the set obtained by inserting and
    removing the arguments in order; a sequence with a null argument stops
    at a DCHECK. *)
Theorem tracker_run_refines_set (ops : list Tracker.Op) (s : Tracker.t) :
  Tracker.reachable s →
  (Forall (λ op, HeldSet.arg op ≠ nullptr) ops →
   ∃ s', Tracker.run ops s = Ok s'
         ∧ Tracker.held s' = HeldSet.apply_all ops (Tracker.held s))
  ∧ (Exists (λ op, HeldSet.arg op = nullptr) ops →
     Tracker.run ops s = Fatal).
Proof.
  intros Hs. split.
  - intros Hops. destruct (run_refines ops s Hs Hops) as (s' & ? & ? & _).
    by exists s'.
  - by apply run_null.
Qed.

Lemma tracker_run_refines_set_witness :
  Tracker.reachable Tracker.init
  ∧ Forall (λ op, HeldSet.arg op ≠ nullptr)
      [Tracker.Hold 1%N; Tracker.Hold 2%N; Tracker.Release 1%N]
  ∧ ∃ s', Tracker.run
            [Tracker.Hold 1%N; Tracker.Hold 2%N; Tracker.Release 1%N]
            Tracker.init = Ok s'
          ∧ Tracker.held s'
            = HeldSet.apply_all
                [Tracker.Hold 1%N; Tracker.Hold 2%N; Tracker.Release 1%N]
                (Tracker.held Tracker.init).
Proof.
  assert (Hops : Forall (λ op, HeldSet.arg op ≠ nullptr)
            [Tracker.Hold 1%N; Tracker.Hold 2%N; Tracker.Release 1%N]).
  { repeat constructor; discriminate. }
  split; [apply Tracker.reachable_init|]. split; [exact Hops|].
  exact (proj1 (tracker_run_refines_set _ _ Tracker.reachable_init) Hops).
Defined.

(** X8: nothing is left behind.  Holding the instances of a list, in
    order and with repetitions allowed, and then releasing them in any
    order brings the initial state back: the slot is null and the set has
    been deleted. *)
Theorem tracker_hold_all_release_all (ms ms' : list ptr) :
  Forall (λ m, m ≠ nullptr) ms → ms ≡ₚ ms' →
  Tracker.run ((Tracker.Hold <$> ms) ++ (Tracker.Release <$> ms'))
    Tracker.init
  = Ok Tracker.init.
Proof.
  intros Hms Hperm.
  assert (Hops : Forall (λ op, HeldSet.arg op ≠ nullptr)
            ((Tracker.Hold <$> ms) ++ (Tracker.Release <$> ms'))).
  { apply Forall_app. split; apply Forall_fmap.
    - exact Hms.
    - rewrite <- Hperm. exact Hms. }
  destruct (run_refines _ _ Tracker.reachable_init Hops)
    as (s' & -> & Hheld & Hr).
  f_equal.
  apply (reachable_wf s') in Hr.
  unfold HeldSet.apply_all in Hheld. rewrite foldl_app in Hheld.
  fold (HeldSet.apply_all (Tracker.Hold <$> ms) (Tracker.held Tracker.init))
    in Hheld.
  fold (HeldSet.apply_all (Tracker.Release <$> ms')
          (HeldSet.apply_all (Tracker.Hold <$> ms)
             (Tracker.held Tracker.init))) in Hheld.
  rewrite apply_all_release, apply_all_hold in Hheld.
  assert (He : Tracker.held s' = ∅).
  { rewrite Hheld. apply set_eq. intros x.
    rewrite elem_of_difference, elem_of_union, !elem_of_list_to_set, Hperm.
    set_solver. }
  destruct (wf_cases s' Hr) as [->|[(a & Ha & ->)|(S & HS & ->)]]; [done|..].
  - rewrite held_Single in He by done.
    assert (Hin : a ∈ ({[a]} : gset ptr)) by set_solver.
    rewrite He in Hin. set_solver.
  - rewrite held_Many in He. by subst.
Qed.

Lemma tracker_hold_all_release_all_witness :
  Forall (λ m, m ≠ nullptr) [1%N; 2%N; 3%N]
  ∧ [1%N; 2%N; 3%N] ≡ₚ [2%N; 3%N; 1%N]
  ∧ Tracker.run ((Tracker.Hold <$> [1%N; 2%N; 3%N])
                 ++ (Tracker.Release <$> [2%N; 3%N; 1%N])) Tracker.init
    = Ok Tracker.init.
Proof.
  assert (Hms : Forall (λ m : ptr, m ≠ nullptr) [1%N; 2%N; 3%N]).
  { repeat constructor; discriminate. }
  assert (Hperm : [1%N; 2%N; 3%N] ≡ₚ [2%N; 3%N; 1%N]).
  { apply (Permutation_cons_append [2%N; 3%N] 1%N). }
  split; [exact Hms|]. split; [exact Hperm|].
  exact (tracker_hold_all_release_all _ _ Hms Hperm).
Defined.

(** ** Further properties of SharedMutex *)









Lemma invoke_acquire_free meth w self this :
  this ≠ nullptr → Tracker.reachable (w self) →
  this ∉ Tracker.held (w self) → SharedMutexModes.acquires meth = true →
  ∃ w1 tr1,
    SharedMutexCalls.invoke meth self this w = Ok (true, w1, tr1)
    ∧ Tracker.reachable (w1 self)
    ∧ Tracker.held (w1 self) = Tracker.held (w self) ∪ {[this]}.
Proof.
  intros Hthis Hreach Hfree Hacq.
  destruct meth as [| | | |[]|[]]; try done; simpl.
  - destruct (lock_free_ok w self this Hthis Hreach Hfree)
      as (s' & Hheld & Hr & E & _).
    unfold mbind, M_bind, mret, M_ret. rewrite E. do 2 eexists.
    split; [done|]. by rewrite fn_lookup_insert.
  - destruct (lock_free_ok w self this Hthis Hreach Hfree)
      as (s' & Hheld & Hr & _ & E).
    unfold mbind, M_bind, mret, M_ret. rewrite E. do 2 eexists.
    split; [done|]. by rewrite fn_lookup_insert.
  - destruct (try_lock_free_acquired w self this Hthis Hreach Hfree)
      as (s' & Hheld & Hr & E & _).
    rewrite E. do 2 eexists. split; [done|]. by rewrite fn_lookup_insert.
  - destruct (try_lock_free_acquired w self this Hthis Hreach Hfree)
      as (s' & Hheld & Hr & _ & E).
    rewrite E. do 2 eexists. split; [done|]. by rewrite fn_lookup_insert.
Qed.

(** X11: the tracker keeps no record of the mode.  When the calling thread
    does not hold an instance, any acquisition that returns holding it
    (LockShared, LockExclusive or a successful try of either kind) followed
    by UnlockShared or by UnlockExclusive passes every DCHECK and leaves
    the thread's held-set as it was; after a failed try, either Unlock
    stops at its DCHECK. *)
Theorem SharedMutex_release_after_acquire
  (acq rel : SharedMutexCalls.Method) (w : SharedMutex.TLS) (self : thread)
  (this : ptr) :
  this ≠ nullptr → Tracker.reachable (w self) →
  this ∉ Tracker.held (w self) → SharedMutexModes.releases rel = true →
  (SharedMutexModes.acquires acq = true →
   ∃ w1 tr1 w2 tr2,
     SharedMutexCalls.invoke acq self this w = Ok (true, w1, tr1)
     ∧ SharedMutexCalls.invoke rel self this w1 = Ok (true, w2, tr2)
     ∧ Tracker.held (w2 self) = Tracker.held (w self))
  ∧ (SharedMutexModes.failed_try acq = true →
     ∃ w1 tr1,
       SharedMutexCalls.invoke acq self this w = Ok (false, w1, tr1)
       ∧ SharedMutexCalls.invoke rel self this w1 = Fatal).
Proof.
  intros Hthis Hreach Hfree Hrel. split.
  - intros Hacq.
    destruct (invoke_acquire_free acq w self this Hthis Hreach Hfree Hacq)
      as (w1 & tr1 & E1 & Hr1 & Hheld1).
    assert (Hin : this ∈ Tracker.held (w1 self)).
    { rewrite Hheld1. set_solver. }
    destruct (unlock_held_ok w1 self this Hthis Hr1 Hin)
      as (s2 & Hheld2 & _ & Es & Ee).
    exists w1, tr1.
    destruct rel; try done; simpl; unfold mbind, M_bind, mret, M_ret.
    + rewrite Es. do 2 eexists. do 2 (split; [done|]).
      rewrite fn_lookup_insert, Hheld2, Hheld1. set_solver.
    + rewrite Ee. do 2 eexists. do 2 (split; [done|]).
      rewrite fn_lookup_insert, Hheld2, Hheld1. set_solver.
  - intros Hfail.
    destruct (try_lock_free_failed w self this Hthis Hfree) as [Es Ee].
    assert (Hf : SharedMutexCalls.invoke rel self this
                   (<[self := w self]> w) = Fatal).
    { destruct (unlock_free_fatal (<[self := w self]> w) self this Hthis)
        as [Us Ue]; [by rewrite fn_lookup_insert..|].
      destruct rel; try done; simpl; unfold mbind, M_bind.
      - by rewrite Us.
      - by rewrite Ue. }
    destruct acq as [| | | |[]|[]]; try done; simpl.
    + rewrite Es. do 2 eexists. split; [done|]. exact Hf.
    + rewrite Ee. do 2 eexists. split; [done|]. exact Hf.
Qed.

Lemma SharedMutex_release_after_acquire_witness :
  3%N ≠ nullptr
  ∧ Tracker.reachable (SharedMutex.tls_init 0%nat)
  ∧ (3%N ∉ Tracker.held (SharedMutex.tls_init 0%nat))
  ∧ SharedMutexModes.releases SharedMutexCalls.UnlockExclusive = true
  ∧ SharedMutexModes.acquires SharedMutexCalls.LockShared = true
  ∧ (∃ w1 tr1 w2 tr2,
       SharedMutexCalls.invoke SharedMutexCalls.LockShared 0%nat 3%N
         SharedMutex.tls_init = Ok (true, w1, tr1)
       ∧ SharedMutexCalls.invoke SharedMutexCalls.UnlockExclusive 0%nat 3%N
           w1 = Ok (true, w2, tr2)
       ∧ Tracker.held (w2 0%nat)
         = Tracker.held (SharedMutex.tls_init 0%nat)).
Proof.
  assert (Hthis : 3%N ≠ nullptr) by discriminate.
  assert (Hreach : Tracker.reachable (SharedMutex.tls_init 0%nat))
    by apply Tracker.reachable_init.
  assert (Hfree : 3%N ∉ Tracker.held (SharedMutex.tls_init 0%nat)).
  { apply (bool_decide_unpack _). vm_compute. exact I. }
  assert (Hrel : SharedMutexModes.releases SharedMutexCalls.UnlockExclusive
                 = true) by reflexivity.
  assert (Hacq : SharedMutexModes.acquires SharedMutexCalls.LockShared = true)
    by reflexivity.
  split; [exact Hthis|]. split; [exact Hreach|]. split; [exact Hfree|].
  split; [exact Hrel|]. split; [exact Hacq|].
  exact (proj1 (SharedMutex_release_after_acquire
                  SharedMutexCalls.LockShared SharedMutexCalls.UnlockExclusive
                  SharedMutex.tls_init 0%nat 3%N Hthis Hreach Hfree Hrel)
           Hacq).
Defined.

(** ** Further properties of RecursiveMutex *)

Lemma RecursiveMutex_step_delta os this op s s' tr :
  RecursiveMutex.step os this op s = Ok (tt, s', tr) →
  RecursiveMutex.level_ s'
  = RecursiveMutex.level_ s + RecursiveMutexRuns.delta os op.
Proof.
  destruct s as [l]. intros E.
  destruct os, op as [result|result|result]; simpl in *; run_recursive;
    decide_tests; simplify_eq; simpl; lia.
Qed.

Lemma RecursiveMutex_step_unit os this op s r s' tr :
  RecursiveMutex.step os this op s = Ok (r, s', tr) → r = tt.
Proof. by destruct r. Qed.

(** X12: the depth counter counts acquisitions minus releases.  Along any
    run of Lock, Unlock and TryLock calls on one instance that passes every
    DCHECK, the counter has grown by the number of Lock calls and
    successful TryLock calls minus the number of Unlock calls, and it is
    not negative if it was not negative at the start. *)
Theorem RecursiveMutex_level_is_balance
  (os : RecursiveMutex.Platform) (this : ptr)
  (ops : list RecursiveMutex.Op) (s s' : RecursiveMutex.t) :
  RecursiveMutexRuns.run os this ops s = Ok s' →
  RecursiveMutex.level_ s'
  = RecursiveMutex.level_ s + RecursiveMutexRuns.balance os ops
  ∧ (0 ≤ RecursiveMutex.level_ s → 0 ≤ RecursiveMutex.level_ s').
Proof.
  revert s. induction ops as [|op ops IH]; intros s E; simpl in *.
  - simplify_eq. split; lia.
  - destruct (RecursiveMutex.step os this op s) as [[[[] s1] tr]| |] eqn:Es;
      try done.
    destruct (IH s1 E) as [Hl Hpos].
    pose proof (RecursiveMutex_step_delta _ _ _ _ _ _ Es) as Hd.
    pose proof (RecursiveMutex_step_level _ _ _ _ _ _ Es) as Hp.
    split; [lia|auto].
Qed.

Lemma RecursiveMutex_level_is_balance_witness :
  RecursiveMutexRuns.run RecursiveMutex.V8_OS_POSIX 5%N
    [RecursiveMutex.OpLock 0; RecursiveMutex.OpTryLock 16;
     RecursiveMutex.OpTryLock 0; RecursiveMutex.OpUnlock 0]
    (RecursiveMutex.mk 0)
  = Ok (RecursiveMutex.mk 1)
  ∧ RecursiveMutex.level_ (RecursiveMutex.mk 1)
    = RecursiveMutex.level_ (RecursiveMutex.mk 0)
      + RecursiveMutexRuns.balance RecursiveMutex.V8_OS_POSIX
          [RecursiveMutex.OpLock 0; RecursiveMutex.OpTryLock 16;
           RecursiveMutex.OpTryLock 0; RecursiveMutex.OpUnlock 0].
Proof.
  assert (E : RecursiveMutexRuns.run RecursiveMutex.V8_OS_POSIX 5%N
                [RecursiveMutex.OpLock 0; RecursiveMutex.OpTryLock 16;
                 RecursiveMutex.OpTryLock 0; RecursiveMutex.OpUnlock 0]
                (RecursiveMutex.mk 0)
              = Ok (RecursiveMutex.mk 1)) by reflexivity.
  split; [exact E|].
  exact (proj1 (RecursiveMutex_level_is_balance _ _ _ _ _ E)).
Defined.

Lemma run_app os this ops1 ops2 s :
  RecursiveMutexRuns.run os this (ops1 ++ ops2) s
  = match RecursiveMutexRuns.run os this ops1 s with
    | Ok s1 => RecursiveMutexRuns.run os this ops2 s1
    | Fatal => Fatal
    | Undefined => Undefined
    end.
Proof.
  revert s. induction ops1 as [|op ops1 IH]; intros s; simpl; [done|].
  by destruct (RecursiveMutex.step os this op s) as [[[[] s1] tr]| |].
Qed.

Lemma Lock_success os this l :
  0 ≤ l < INT_MAX →
  ∃ tr, RecursiveMutex.Lock os this (RecursiveMutexRuns.success os)
          (RecursiveMutex.mk l)
        = Ok (tt, RecursiveMutex.mk (l + 1), tr).
Proof.
  intros Hl. destruct os; run_recursive; decide_tests; by eexists.
Qed.

Lemma Unlock_success os this l :
  0 < l →
  ∃ tr, RecursiveMutex.Unlock os this (RecursiveMutexRuns.success os)
          (RecursiveMutex.mk l)
        = Ok (tt, RecursiveMutex.mk (l - 1), tr).
Proof.
  intros Hl. destruct os; run_recursive; decide_tests; by eexists.
Qed.

Lemma Unlock_underflow os this result l :
  l ≤ 0 →
  RecursiveMutex.Unlock os this result (RecursiveMutex.mk l) = Fatal.
Proof.
  intros Hl. destruct os; run_recursive; by decide_tests.
Qed.

Lemma run_locks os this (k : nat) l :
  0 ≤ l → l + Z.of_nat k ≤ INT_MAX →
  RecursiveMutexRuns.run os this
    (replicate k (RecursiveMutex.OpLock (RecursiveMutexRuns.success os)))
    (RecursiveMutex.mk l)
  = Ok (RecursiveMutex.mk (l + Z.of_nat k)).
Proof.
  revert l. induction k as [|k IH]; intros l Hl Hk; simpl replicate.
  - simpl. do 2 f_equal. lia.
  - simpl RecursiveMutexRuns.run. simpl RecursiveMutex.step.
    destruct (Lock_success os this l) as [tr ->]; [lia|].
    rewrite IH by lia. do 2 f_equal. lia.
Qed.

Lemma run_unlocks os this (k : nat) l :
  Z.of_nat k ≤ l →
  RecursiveMutexRuns.run os this
    (replicate k (RecursiveMutex.OpUnlock (RecursiveMutexRuns.success os)))
    (RecursiveMutex.mk l)
  = Ok (RecursiveMutex.mk (l - Z.of_nat k)).
Proof.
  revert l. induction k as [|k IH]; intros l Hk; simpl replicate.
  - simpl. do 2 f_equal. lia.
  - simpl RecursiveMutexRuns.run. simpl RecursiveMutex.step.
    destruct (Unlock_success os this l) as [tr ->]; [lia|].
    rewrite IH by lia. do 2 f_equal. lia.
Qed.

(** X13: nested use balances.  With the native calls succeeding, [k] Lock
    calls followed by [k] Unlock calls pass every DCHECK and bring the
    depth counter back to where it was, provided the counter is not
    negative and [k] more levels fit in an int; one Unlock more than there
    were Locks stops at the DCHECK of Unlock. *)
Theorem RecursiveMutex_nested_locks_balance
  (os : RecursiveMutex.Platform) (this : ptr) (k : nat) (l : Z) :
  0 ≤ l → l + Z.of_nat k ≤ INT_MAX →
  let lock := RecursiveMutex.OpLock (RecursiveMutexRuns.success os) in
  let unlock := RecursiveMutex.OpUnlock (RecursiveMutexRuns.success os) in
  RecursiveMutexRuns.run os this (replicate k lock ++ replicate k unlock)
    (RecursiveMutex.mk l)
  = Ok (RecursiveMutex.mk l)
  ∧ RecursiveMutexRuns.run os this
      (replicate k lock ++ replicate (S k) unlock) (RecursiveMutex.mk 0)
    = Fatal.
Proof.
  intros Hl Hk lock unlock. subst lock unlock. split.
  - rewrite run_app, run_locks by done. rewrite run_unlocks by lia.
    do 2 f_equal. lia.
  - rewrite run_app, run_locks by lia.
    replace (S k) with (k + 1)%nat by lia.
    rewrite replicate_add, run_app, run_unlocks by lia.
    simpl. by rewrite Unlock_underflow by lia.
Qed.

Lemma RecursiveMutex_nested_locks_balance_witness :
  0 ≤ 2 ∧ 2 + Z.of_nat 3 ≤ INT_MAX
  ∧ RecursiveMutexRuns.run RecursiveMutex.V8_OS_WIN 5%N
      (replicate 3 (RecursiveMutex.OpLock 1)
       ++ replicate 3 (RecursiveMutex.OpUnlock 1)) (RecursiveMutex.mk 2)
    = Ok (RecursiveMutex.mk 2).
Proof.
  assert (Hl : 0 ≤ 2) by lia.
  assert (Hk : 2 + Z.of_nat 3 ≤ INT_MAX) by (unfold INT_MAX; lia).
  split; [exact Hl|]. split; [exact Hk|].
  exact (proj1 (RecursiveMutex_nested_locks_balance
                  RecursiveMutex.V8_OS_WIN 5%N 3 2 Hl Hk)).
Defined.

(** X14: on POSIX a native call that reports an error stops the method at
    a DCHECK: any non-zero code for the constructor's four calls, for Lock,
    Unlock and the destructor, and any code other than 0 and EBUSY for
    TryLock; EBUSY makes TryLock return false after the one native call. *)
Theorem RecursiveMutex_posix_error_codes
  (this : ptr) (s : RecursiveMutex.t) (result : Z) :
  (∀ r, RecursiveMutex.init_ok RecursiveMutex.V8_OS_POSIX r = false →
        RecursiveMutex.constructor RecursiveMutex.V8_OS_POSIX this r s
        = Fatal)
  ∧ (result ≠ 0 →
     RecursiveMutex.Lock RecursiveMutex.V8_OS_POSIX this result s = Fatal
     ∧ RecursiveMutex.Unlock RecursiveMutex.V8_OS_POSIX this result s = Fatal
     ∧ RecursiveMutex.destructor RecursiveMutex.V8_OS_POSIX this result s
       = Fatal)
  ∧ (result ≠ 0 → result ≠ RecursiveMutex.EBUSY →
     RecursiveMutex.TryLock RecursiveMutex.V8_OS_POSIX this result s = Fatal)
  ∧ RecursiveMutex.TryLock RecursiveMutex.V8_OS_POSIX this
      RecursiveMutex.EBUSY s
    = Ok (false, s, [pthread_mutex_trylock_call this]).
Proof.
  destruct s as [l]. split; [|split; [|split]].
  - intros [r1 r2 r3 r4] Hr. run_recursive.
    repeat (apply andb_false_iff in Hr as [Hr|Hr]); by decide_tests.
  - intros Hres. repeat split; run_recursive; by decide_tests.
  - intros Hres Hbusy. run_recursive. by decide_tests.
  - run_recursive. by decide_tests.
Qed.

Lemma RecursiveMutex_posix_error_codes_witness :
  22 ≠ 0 ∧ 22 ≠ RecursiveMutex.EBUSY
  ∧ RecursiveMutex.TryLock RecursiveMutex.V8_OS_POSIX 5%N 22
      (RecursiveMutex.mk 0) = Fatal.
Proof.
  assert (H0 : 22 ≠ 0) by discriminate.
  assert (Hb : 22 ≠ RecursiveMutex.EBUSY) by discriminate.
  split; [exact H0|]. split; [exact Hb|].
  exact (proj1 (proj2 (proj2 (RecursiveMutex_posix_error_codes
                                5%N (RecursiveMutex.mk 0) 22))) H0 Hb).
Defined.

(** X15: the depth counter has no overflow check.  At the largest int,
    Lock and a successful TryLock pass their DCHECK and then increment,
    which is undefined behaviour for a signed int; a failed TryLock is
    harmless there. *)
Theorem RecursiveMutex_depth_overflow
  (os : RecursiveMutex.Platform) (this : ptr) (result : Z) :
  (RecursiveMutex.native_ok os result = true →
   RecursiveMutex.Lock os this result (RecursiveMutex.mk INT_MAX) = Undefined)
  ∧ (RecursiveMutex.native_acquired os result = true →
     RecursiveMutex.TryLock os this result (RecursiveMutex.mk INT_MAX)
     = Undefined)
  ∧ (RecursiveMutex.native_busy os result = true →
     ∃ tr, RecursiveMutex.TryLock os this result (RecursiveMutex.mk INT_MAX)
           = Ok (false, RecursiveMutex.mk INT_MAX, tr)).
Proof.
  repeat split; intros; destruct os; run_recursive; decide_tests;
    try done; by eexists.
Qed.

Lemma RecursiveMutex_depth_overflow_witness :
  RecursiveMutex.native_ok RecursiveMutex.V8_OS_POSIX 0 = true
  ∧ RecursiveMutex.Lock RecursiveMutex.V8_OS_POSIX 5%N 0
      (RecursiveMutex.mk INT_MAX) = Undefined.
Proof.
  assert (Hok : RecursiveMutex.native_ok RecursiveMutex.V8_OS_POSIX 0 = true)
    by reflexivity.
  split; [exact Hok|].
  exact (proj1 (RecursiveMutex_depth_overflow
                  RecursiveMutex.V8_OS_POSIX 5%N 0) Hok).
Defined.
